(** * Managed codebase indexing: chunker, git probe, client cache, search, watcher

A shallow embedding of the indexing engine's TypeScript sources
([chunker.ts], [git-utils.ts], [cache.ts], [indexer.ts], [watcher.ts])
and the properties of the engine stated against it.

Conventions of the embedding.
- A JavaScript string is a [string]: a sequence of code units, each
  modelled as an [ascii] character (code units 0..255).  [length] counts
  code units, as [String.prototype.length] does.
- A JavaScript number that holds a count, an index or a line number is
  a [Z]; the chunker's configuration values are taken to be integers.
- An array that is built once and then only read is a [list]; an object
  that the code updates in place lives in an explicit heap.
- A call that may throw (or a promise that may reject) returns an
  [option]: [None] stands for the exception.  Logging and telemetry
  calls have no effect on any value studied here and are left out. *)

From Stdlib Require Import ZArith Lia Bool Ascii String DecimalString.
From stdpp Require Import base option list gmap strings fin_maps.

Local Open Scope string_scope.
Local Open Scope Z_scope.
Local Open Scope list_scope.

(* ===================================================================== *)
(** * Part I: the programs                                                *)
(* ===================================================================== *)

(** ** JavaScript strings and arrays *)

Module JS.

Definition LF : ascii := "010"%char.
Definition TAB : ascii := "009"%char.

(** [s.length] and [a.length] as numbers. *)
Definition str_length (s : string) : Z := Z.of_nat (String.length s).
Definition arr_length {A} (a : list A) : Z := Z.of_nat (List.length a).

(** [s.split(sep)] for a separator of one code unit.  The result always
    has at least one element: [("").split(sep)] is [[""]]. *)
Fixpoint split (sep : ascii) (s : string) : list string :=
  match s with
  | EmptyString => [EmptyString]
  | String c rest =>
      if Ascii.eqb c sep then EmptyString :: split sep rest
      else match split sep rest with
           | piece :: pieces => String c piece :: pieces
           | [] => [String c EmptyString]
           end
  end.

(** [a.join(sep)]. *)
Definition join (sep : string) (a : list string) : string := String.concat sep a.

(** [Array.prototype.slice(start, end)] on integer arguments: a negative
    index counts from the end, and both are clamped to the array. *)
Definition clamp_index (len k : Z) : Z :=
  if k <? 0 then Z.max (len + k) 0 else Z.min k len.

Definition slice {A} (a : list A) (start stop : Z) : list A :=
  let len := arr_length a in
  let k := clamp_index len start in
  let final := clamp_index len stop in
  take (Z.to_nat (final - k)) (drop (Z.to_nat k) a).

(** [a.slice(start)]. *)
Definition slice_from {A} (a : list A) (start : Z) : list A :=
  slice a start (arr_length a).

(** Template-literal rendering of an integer number. *)
Definition number_to_string (n : Z) : string :=
  NilZero.string_of_int (Z.to_int n).

(** White space and line terminators removed by [String.prototype.trim],
    among the code units 0..255: TAB, LF, VT, FF, CR, SP and NBSP. *)
Definition is_white_space (c : ascii) : bool :=
  let n := nat_of_ascii c in
  ((9 <=? n)%nat && (n <=? 13)%nat) || (n =? 32)%nat || (n =? 160)%nat.

Fixpoint trim_start (s : string) : string :=
  match s with
  | EmptyString => EmptyString
  | String c rest => if is_white_space c then trim_start rest else s
  end.

(** Removes trailing white space: a character is kept when something
    that is not white space follows it or it is not white space itself. *)
Fixpoint trim_end (s : string) : string :=
  match s with
  | EmptyString => EmptyString
  | String c rest =>
      match trim_end rest with
      | EmptyString => if is_white_space c then EmptyString else String c EmptyString
      | kept => String c kept
      end
  end.

Definition trim (s : string) : string := trim_end (trim_start s).

(** Truthiness of a string: the empty string is the only falsy one. *)
Definition truthy (s : string) : bool :=
  match s with EmptyString => false | _ => true end.

(** [s[0]]: [None] stands for [undefined]. *)
Definition first_char (s : string) : option ascii :=
  match s with EmptyString => None | String c _ => Some c end.

(** [String.prototype.toLowerCase] on the code units 0..255: the letters
    [A]..[Z] and the Latin-1 capitals U+00C0..U+00DE, the multiplication
    sign U+00D7 apart, move up by 32; every other code unit stays. *)
Definition lower_char (c : ascii) : ascii :=
  let n := nat_of_ascii c in
  if ((65 <=? n)%nat && (n <=? 90)%nat)
     || ((192 <=? n)%nat && (n <=? 222)%nat && negb (n =? 215)%nat)
  then ascii_of_nat (n + 32)
  else c.

Fixpoint toLowerCase (s : string) : string :=
  match s with
  | EmptyString => EmptyString
  | String c rest => String (lower_char c) (toLowerCase rest)
  end.

(** [a.includes(x)] on an array of strings. *)
Definition includes (a : list string) (x : string) : bool :=
  existsb (String.eqb x) a.

(** An object used as a table from strings to values of type [A]: [{}]
    filled by assignments [table[key] = value].  [own] holds its own
    properties.  Its prototype is [Object.prototype] until a value is
    assigned to the key [__proto__] of a table that has no own property of
    that name: that assignment runs the setter [Object.prototype] carries
    for [__proto__], which makes the value the table's prototype instead of
    storing a property; [proto] is that value.  (A table gets an own
    property [__proto__] only from [JSON.parse].)  The values stored are
    objects. *)
Record Table (A : Type) := {
  own : gmap string A;
  proto : option A
}.
Arguments own {A} _.
Arguments proto {A} _.
Arguments Build_Table {A} _ _.

(** [{}] *)
#[global] Instance table_empty {A} : Empty (Table A) :=
  {| own := ∅; proto := None |}.

(** The table with the one own property [key]. *)
#[global] Instance table_singleton {A} : SingletonM string A (Table A) :=
  fun key value => {| own := {[ key := value ]}; proto := None |}.

Definition proto_key : string := "__proto__".

(** [table[key]], as far as it is a stored value: an own property, or, for
    the key [__proto__] of a table without such an own property, the value
    that was made the prototype.  [None] stands for every other outcome:
    [undefined], a member of [Object.prototype] (inherited, or
    [Object.prototype] itself for the key [__proto__]), or a property
    inherited from the value that was made the prototype. *)
Definition table_get {A} (table : Table A) (key : string) : option A :=
  match own table !! key with
  | Some value => Some value
  | None => if String.eqb key proto_key then proto table else None
  end.

(** [table[key] = value]: an own property is written or created, except
    that the key [__proto__] without an own property of that name sets the
    prototype. *)
Definition table_set {A} (key : string) (value : A) (table : Table A) : Table A :=
  match own table !! key with
  | Some _ => {| own := <[key := value]> (own table); proto := proto table |}
  | None =>
      if String.eqb key proto_key then {| own := own table; proto := Some value |}
      else {| own := <[key := value]> (own table); proto := proto table |}
  end.

(** [const { [key]: removed, ...rest } = table]: [rest] is a new object
    with the own properties of [table] but [key]; its prototype is
    [Object.prototype], whatever the prototype of [table]. *)
Definition table_rest {A} (key : string) (table : Table A) : Table A :=
  {| own := delete key (own table); proto := None |}.

End JS.

(** ** Hash functions of the platform

[crypto.createHash("sha256").update(s).digest("hex")] and [uuid.v5] are
library functions; the engine only composes them.  [uuid.v5(name,
namespace)] throws a [TypeError] when [namespace] is not a UUID; [uuidv5]
is the value of a call that returns.  The chunker passes the organization
id as the namespace of every call: with an organization id that is not a
UUID, [chunkFile] throws at the first chunk it builds and returns nothing,
so what is stated of the chunks [chunkFile] returns is stated of calls with
an organization id that is a UUID. *)

Class Hashing := {
  sha256_hex : string -> string;
  uuidv5 : string -> string -> string
}.

(** ** The host: git, the file system, JSON, the clock, the remote service

Everything the engine reaches outside its own code is an oracle.  Git is
modelled by its answers: each command the engine runs only reads the
repository, except [git remote set-head origin --auto], which may
rewrite [refs/remotes/origin/HEAD]. *)

(** The value [JSON.parse] returns.  A number is the finite double
    [mantissa * 2 ^ exponent]; an object lists its own properties, each
    key once. *)
#[warnings="-register-all"]
Inductive JsonValue :=
| JNull
| JBool (b : bool)
| JNumber (mantissa exponent : Z)
| JString (s : string)
| JArray (items : list JsonValue)
| JObject (properties : list (string * JsonValue)).

Record SearchRequest := {
  query : string;
  req_organizationId : string;
  req_projectId : string;
  preferBranch : string;
  fallbackBranch : string;
  excludeFiles : list string;
  path : option string
}.

Class Host := {
  World : Type;
  SearchResult : Type;
  (** [execSync(command, {cwd})] for a command that reads the repository:
      its standard output, or [None] when it exits with an error. *)
  git_query : string -> string -> World -> option string;
  (** [execSync("git remote set-head origin --auto", {cwd})]. *)
  git_remote_set_head_auto : string -> World -> option string * World;
  (** [(await vscode.workspace.fs.readFile(uri)).toString()] *)
  fs_readFile : string -> World -> option string;
  (** [vscode.Uri.joinPath(base, name)] *)
  Uri_joinPath : string -> string -> string;
  JSON_parse : string -> option JsonValue;
  Date_now : World -> Z;
  (** The answer of the remote [search] endpoint to a request sent with a
      bearer token. *)
  remote_search : SearchRequest -> string -> World -> option (list SearchResult) * World
}.

(** ** The machine and its monad

The state a call can change: the world outside, the heap of JavaScript
objects that are updated in place (the [files] tables of client
caches), and the search requests sent so far. *)

Module Eff.
Section WithHost.
Context `{Host}.

Record FileEntry := {
  hash : string;
  lastIndexed : Z;
  chunkCount : Z
}.

Definition loc := positive.

Record Machine := {
  world : World;
  heap : gmap loc (JS.Table FileEntry);
  outbox : list (SearchRequest * string)
}.

Definition M (A : Type) : Type := Machine -> option A * Machine.

Definition ret {A} (a : A) : M A := fun m => (Some a, m).
Definition throw {A} : M A := fun m => (None, m).
Definition bind {A B} (c : M A) (k : A -> M B) : M B :=
  fun m => match c m with
           | (Some a, m') => k a m'
           | (None, m') => (None, m')
           end.

(** [try { body } catch { handler }] *)
Definition try_catch {A} (body handler : M A) : M A :=
  fun m => match body m with
           | (Some a, m') => (Some a, m')
           | (None, m') => handler m'
           end.

(** A library call that returns or throws without touching the state. *)
Definition lift_option {A} (o : option A) : M A := fun m => (o, m).

Definition set_world (w : World) (m : Machine) : Machine :=
  {| world := w; heap := heap m; outbox := outbox m |}.
Definition set_heap (h : gmap loc (JS.Table FileEntry)) (m : Machine) : Machine :=
  {| world := world m; heap := h; outbox := outbox m |}.

Definition set_head_command : string := "git remote set-head origin --auto".

(** [child_process.execSync(command, { cwd, encoding: "utf8" })] *)
Definition execSync (command cwd : string) : M string :=
  fun m =>
    if String.eqb command set_head_command then
      let '(out, w) := git_remote_set_head_auto cwd (world m) in
      (out, set_world w m)
    else (git_query command cwd (world m), m).

Definition readFile (uri : string) : M string :=
  fun m => (fs_readFile uri (world m), m).

(** [apiSearchCode(request, token)]: the request goes out, the answer
    comes back. *)
Definition apiSearchCode (request : SearchRequest) (token : string) : M (list SearchResult) :=
  fun m =>
    let '(answer, w) := remote_search request token (world m) in
    (answer, {| world := w; heap := heap m; outbox := outbox m ++ [(request, token)] |}).
End WithHost.

Notation "x <- c ;; k" := (bind c (fun x => k))
  (at level 100, c at next level, right associativity).
End Eff.

(** ** chunker.ts *)

Module Chunker.
Import JS.

Record ChunkerConfig := {
  maxChunkChars : Z;
  minChunkChars : Z;
  overlapLines : Z
}.

(** [Partial<ChunkerConfig>]: every field may be missing. *)
Record PartialChunkerConfig := {
  maxChunkChars_opt : option Z;
  minChunkChars_opt : option Z;
  overlapLines_opt : option Z
}.

(** Modelled from the spec: the constants [MANAGED_MAX_CHUNK_CHARS],
    [MANAGED_MIN_CHUNK_CHARS] and [MANAGED_OVERLAP_LINES] of
    [../constants], which is not among the sources; the specification
    gives the defaults {1000, 200, 5}. *)
Definition MANAGED_MAX_CHUNK_CHARS : Z := 1000.
Definition MANAGED_MIN_CHUNK_CHARS : Z := 200.
Definition MANAGED_OVERLAP_LINES : Z := 5.

Record ManagedCodeChunk := {
  id : string;
  organizationId : string;
  projectId : string;
  filePath : string;
  codeChunk : string;
  startLine : Z;
  endLine : Z;
  chunkHash : string;
  gitBranch : string;
  isBaseBranch : bool
}.

Section WithHashing.
Context `{Hashing}.

Definition generateChunkHash (filePath : string) (startLine endLine : Z) : string :=
  sha256_hex (filePath +:+ "-" +:+ number_to_string startLine
              +:+ "-" +:+ number_to_string endLine).

Definition generateChunkId (chunkHash organizationId gitBranch : string) : string :=
  let branchAwareHash := sha256_hex (chunkHash +:+ "-" +:+ gitBranch) in
  uuidv5 branchAwareHash organizationId.

Definition createChunk (lines : list string) (startLine endLine : Z)
    (filePath fileHash organizationId projectId gitBranch : string)
    (isBaseBranch : bool) : ManagedCodeChunk :=
  let content := join (String LF EmptyString) lines in
  let chunkHash := generateChunkHash filePath startLine endLine in
  let id := generateChunkId chunkHash organizationId gitBranch in
  {| id := id;
     organizationId := organizationId;
     projectId := projectId;
     filePath := filePath;
     codeChunk := content;
     startLine := startLine;
     endLine := endLine;
     chunkHash := chunkHash;
     gitBranch := gitBranch;
     isBaseBranch := isBaseBranch |}.

(** The mutable locals of [chunkFile]: [chunks], [currentChunk],
  [currentChunkChars] and [startLine]. *)
Record LoopState := {
  chunks : list ManagedCodeChunk;
  currentChunk : list string;
  currentChunkChars : Z;
  startLine_var : Z
}.

(** [currentChunk.reduce((sum, l) => sum + l.length + 1, 0)] *)
Definition chars_of (lines : list string) : Z :=
  fold_left (fun sum l => sum + str_length l + 1) lines 0.

Section Loop.
Variables (filePath fileHash organizationId projectId gitBranch : string).
Variable isBaseBranch : bool.
Variable chunkerConfig : ChunkerConfig.

(** One iteration of the [for] loop, at index [i] with [line = lines[i]]. *)
Definition loop_body (i : Z) (line : string) (st : LoopState) : LoopState :=
  let lineLength := str_length line + 1 in
  let st :=
    if (currentChunkChars st + lineLength >? maxChunkChars chunkerConfig)
       && (arr_length (currentChunk st) >? 0)
    then
      if currentChunkChars st >=? minChunkChars chunkerConfig then
        let pushed :=
          chunks st ++
          [createChunk (currentChunk st) (startLine_var st) i
             filePath fileHash organizationId projectId gitBranch isBaseBranch] in
        let overlapStart :=
          Z.max 0 (arr_length (currentChunk st) - overlapLines chunkerConfig) in
        let kept := slice_from (currentChunk st) overlapStart in
        {| chunks := pushed;
           currentChunk := kept;
           currentChunkChars := chars_of kept;
           startLine_var := i - (arr_length kept - 1) |}
      else st
    else st in
  {| chunks := chunks st;
     currentChunk := currentChunk st ++ [line];
     currentChunkChars := currentChunkChars st + lineLength;
     startLine_var := startLine_var st |}.

(** [for (let i = ...; i < lines.length; i++)] over the lines that remain,
  [i] being the index of the first of them. *)
Fixpoint loop (i : Z) (remaining : list string) (st : LoopState) : LoopState :=
  match remaining with
  | [] => st
  | line :: remaining' => loop (i + 1) remaining' (loop_body i line st)
  end.

(** The step after the loop: the pending lines become the last chunk when
  they meet the minimum size. *)
Definition finalize (lines : list string) (st : LoopState) : list ManagedCodeChunk :=
  if (arr_length (currentChunk st) >? 0)
     && (currentChunkChars st >=? minChunkChars chunkerConfig)
  then
    chunks st ++
    [createChunk (currentChunk st) (startLine_var st) (arr_length lines)
       filePath fileHash organizationId projectId gitBranch isBaseBranch]
  else chunks st.

End Loop.

(** [config?.field ?? DEFAULT] for each field. *)
Definition resolveConfig (config : option PartialChunkerConfig) : ChunkerConfig :=
  {| maxChunkChars := default MANAGED_MAX_CHUNK_CHARS (config ≫= maxChunkChars_opt);
     minChunkChars := default MANAGED_MIN_CHUNK_CHARS (config ≫= minChunkChars_opt);
     overlapLines := default MANAGED_OVERLAP_LINES (config ≫= overlapLines_opt) |}.

Definition chunkFile (filePath content fileHash organizationId projectId gitBranch : string)
    (isBaseBranch : bool) (config : option PartialChunkerConfig) : list ManagedCodeChunk :=
  let chunkerConfig := resolveConfig config in
  let lines := split LF content in
  let st :=
    loop filePath fileHash organizationId projectId gitBranch isBaseBranch chunkerConfig
      0 lines
      {| chunks := []; currentChunk := []; currentChunkChars := 0; startLine_var := 1 |} in
  finalize filePath fileHash organizationId projectId gitBranch isBaseBranch chunkerConfig
    lines st.

Definition getDefaultChunkerConfig : ChunkerConfig :=
  {| maxChunkChars := MANAGED_MAX_CHUNK_CHARS;
     minChunkChars := MANAGED_MIN_CHUNK_CHARS;
     overlapLines := MANAGED_OVERLAP_LINES |}.
End WithHashing.

End Chunker.

(** ** git-utils.ts *)

Module Git.
Import JS Eff.

Record GitDiff := {
  added : list string;
  modified : list string;
  deleted : list string
}.

(** The body of the [for (const line of lines)] loop: one line of
  [git diff --name-status]. *)
Definition parseLine (acc : GitDiff) (line : string) : GitDiff :=
  let parts := split TAB line in
  if arr_length parts <? 2 then acc
  else
    let status := hd EmptyString parts in
    let filePath := join (String TAB EmptyString) (slice_from parts 1) in
    match first_char status with
    | Some "A"%char =>
        {| added := added acc ++ [filePath]; modified := modified acc; deleted := deleted acc |}
    | Some "M"%char =>
        {| added := added acc; modified := modified acc ++ [filePath]; deleted := deleted acc |}
    | Some "D"%char =>
        {| added := added acc; modified := modified acc; deleted := deleted acc ++ [filePath] |}
    | Some "R"%char =>
        match parts with
        | _ :: old :: new :: _ =>   (* parts.length >= 3 *)
            {| added := added acc ++ [new]; modified := modified acc;
               deleted := deleted acc ++ [old] |}
        | _ => acc
        end
    | Some "C"%char =>
        match parts with
        | _ :: _ :: target :: _ =>  (* parts.length >= 3 *)
            {| added := added acc ++ [target]; modified := modified acc;
               deleted := deleted acc |}
        | _ => acc
        end
    | _ => acc
    end.

Definition parseDiffOutput (diffOutput : string) : GitDiff :=
  let lines := List.filter (fun line => truthy (trim line)) (split LF diffOutput) in
  fold_left parseLine lines {| added := []; modified := []; deleted := [] |}.

(** [s.match(/refs\/remotes\/origin\/(.+)$/)], giving the capture group:
    the leftmost place where the literal is followed, up to the end of
    the string, by at least one character and no line terminator. *)
Fixpoint strip_prefix (p s : string) : option string :=
  match p, s with
  | EmptyString, _ => Some s
  | String a p', String b s' => if Ascii.eqb a b then strip_prefix p' s' else None
  | String _ _, EmptyString => None
  end.

Fixpoint no_line_terminator (s : string) : bool :=
  match s with
  | EmptyString => true
  | String c rest =>
      negb (Ascii.eqb c "010"%char) && negb (Ascii.eqb c "013"%char)
      && no_line_terminator rest
  end.

Definition match_origin_at (s : string) : option string :=
  match strip_prefix "refs/remotes/origin/" s with
  | Some rest => if truthy rest && no_line_terminator rest then Some rest else None
  | None => None
  end.

Fixpoint match_origin (s : string) : option string :=
  match match_origin_at s with
  | Some name => Some name
  | None => match s with
            | EmptyString => None
            | String _ rest => match_origin rest
            end
  end.

Section WithHost.
Context `{Host}.

Definition getCurrentBranch (workspacePath : string) : M string :=
  try_catch
    (out <- execSync "git rev-parse --abbrev-ref HEAD" workspacePath ;;
     ret (trim out))
    throw.

Definition getGitDiff (featureBranch baseBranch workspacePath : string) : M GitDiff :=
  try_catch
    (out <- execSync ("git merge-base " +:+ baseBranch +:+ " " +:+ featureBranch)
              workspacePath ;;
     let mergeBase := trim out in
     diffOutput <- execSync ("git diff --name-status " +:+ mergeBase +:+ ".." +:+ featureBranch)
                     workspacePath ;;
     ret (parseDiffOutput diffOutput))
    throw.

(** The part both attempts of [getDefaultBranchFromRemote] share: read
    the symbolic ref and extract the branch name; [None] is the fall
    through to [return null]. *)
Definition readOriginHead (workspacePath : string) : M (option string) :=
  out <- execSync "git symbolic-ref refs/remotes/origin/HEAD" workspacePath ;;
  let output := trim out in
  match match_origin output with
  | Some name => if truthy name then ret (Some name) else ret None
  | None => ret None
  end.

(** [None] is [null]. *)
Definition getDefaultBranchFromRemote (workspacePath : string) : M (option string) :=
  try_catch
    (readOriginHead workspacePath)
    (try_catch
       (_ <- execSync "git remote set-head origin --auto" workspacePath ;;
        readOriginHead workspacePath)
       (ret None)).

(** [try { execSync(`git rev-parse --verify ${branch}`); return branch } catch {}]:
    [Some branch] is the [return], [None] the fall through. *)
Definition tryVerify (branch workspacePath : string) : M (option string) :=
  try_catch
    (_ <- execSync ("git rev-parse --verify " +:+ branch) workspacePath ;;
     ret (Some branch))
    (ret None).

(** The [for (const branch of commonBranches)] loop. *)
Fixpoint firstVerified (branches : list string) (workspacePath : string) : M (option string) :=
  match branches with
  | [] => ret None
  | branch :: rest =>
      found <- tryVerify branch workspacePath ;;
      match found with
      | Some b => ret (Some b)
      | None => firstVerified rest workspacePath
      end
  end.

Definition commonBranches : list string := ["main"; "develop"; "master"].

Definition getBaseBranch (workspacePath : string) : M string :=
  defaultBranch <- getDefaultBranchFromRemote workspacePath ;;
  found <- match defaultBranch with
           | Some name => if truthy name then tryVerify name workspacePath else ret None
           | None => ret None
           end ;;
  match found with
  | Some b => ret b
  | None =>
      found <- firstVerified commonBranches workspacePath ;;
      match found with
      | Some b => ret b
      | None => ret "main"
      end
  end.

(** [workspacePath] is the optional argument: [None] when it is left out. *)
Definition isBaseBranch (branchName : string) (workspacePath : option string) : M bool :=
  let baseBranches := ["main"; "master"; "develop"; "development"] in
  let isCommonBaseBranch := includes baseBranches (toLowerCase branchName) in
  if isCommonBaseBranch then ret true
  else
    match workspacePath with
    | Some workspacePath =>
        if truthy workspacePath then
          defaultBranch <- getDefaultBranchFromRemote workspacePath ;;
          match defaultBranch with
          | Some name =>
              if truthy name && String.eqb (toLowerCase name) (toLowerCase branchName)
              then ret true
              else ret false
          | None => ret false
          end
        else ret false
    | None => ret false
    end.

Definition getGitTrackedFilesSync (workspacePath : string) : M (list string) :=
  try_catch
    (output <- execSync "git ls-files" workspacePath ;;
     ret (List.filter (fun line => str_length line >? 0)
            (map trim (split LF output))))
    throw.
End WithHost.
End Git.

(** ** cache.ts *)

Module Cache.
Import JS Eff Git.

(** [vscode.ExtensionContext], as far as the engine reads it. *)
Record ExtensionContext := {
  globalStorageUri : string
}.

(** A [ClientCache] object.  Its [files] table is a JavaScript object that
    [updateCacheEntry] writes to, so the record holds the table's address in
    the heap; the [deletedFiles] array is never written to after it is
    built and is held by value.  No function of the module assigns to a
    field of the cache object itself, so passing the record stands for
    passing the reference. *)
Record ClientCache := {
  gitBranch : string;
  deletedFiles : list string;
  files : loc
}.

(** What [loadClientCache] resolves to: the value [JSON.parse] produced,
    returned as it is (the annotation [ClientCache] is not checked at run
    time), or the cache built by [createEmptyCache]. *)
Inductive LoadedCache :=
| Parsed (cache : JsonValue)
| Created (cache : ClientCache).

(** Reading a property of a parsed value: [None] is the [TypeError] raised
    on [null], [Some None] is [undefined]. *)
Fixpoint own_property (properties : list (string * JsonValue)) (key : string) : option JsonValue :=
  match properties with
  | [] => None
  | (k, v) :: rest => if String.eqb k key then Some v else own_property rest key
  end.

Definition get_property (value : JsonValue) (key : string) : option (option JsonValue) :=
  match value with
  | JNull => None
  | JObject properties => Some (own_property properties key)
  | _ => Some None
  end.

Definition json_truthy (value : option JsonValue) : bool :=
  match value with
  | None => false
  | Some JNull => false
  | Some (JBool b) => b
  | Some (JNumber mantissa _) => negb (mantissa =? 0)
  | Some (JString s) => truthy s
  | Some (JArray _) => true
  | Some (JObject _) => true
  end.

Section WithHost.
Context `{Host} `{Hashing}.

Definition getCachePath (context : ExtensionContext) (workspacePath gitBranch : string) : string :=
  let workspaceHash := sha256_hex workspacePath in
  let branchHash := sha256_hex gitBranch in
  let fileName := "managed-index-cache-" +:+ workspaceHash +:+ "-" +:+ branchHash +:+ ".json" in
  Uri_joinPath (globalStorageUri context) fileName.

(** [{ gitBranch, deletedFiles: [], files: {} }]: the object literal [{}]
    allocates a new table. *)
Definition createEmptyCache (gitBranch : string) : M ClientCache :=
  fun m =>
    let table := fresh (dom (heap m)) in
    (Some {| gitBranch := gitBranch; deletedFiles := []; files := table |},
     set_heap (<[table := ∅]> (heap m)) m).

Definition loadClientCache (context : ExtensionContext) (workspacePath : string) : M LoadedCache :=
  try_catch
    (gitBranch <- getCurrentBranch workspacePath ;;
     let cachePath := getCachePath context workspacePath gitBranch in
     cacheData <- readFile cachePath ;;
     cache <- lift_option (JSON_parse cacheData) ;;
     (* if (!cache.gitBranch || !cache.files) throw ... *)
     branchField <- lift_option (get_property cache "gitBranch") ;;
     if negb (json_truthy branchField) then throw
     else
       filesField <- lift_option (get_property cache "files") ;;
       if negb (json_truthy filesField) then throw
       else ret (Parsed cache))
    (gitBranch <- getCurrentBranch workspacePath ;;
     cache <- createEmptyCache gitBranch ;;
     ret (Created cache)).

(** [cache.files[filePath] = { hash, lastIndexed: Date.now(), chunkCount };
    return cache] *)
Definition updateCacheEntry (cache : ClientCache) (filePath fileHash : string)
    (chunkCount : Z) : M ClientCache :=
  fun m =>
    let entry := {| hash := fileHash;
                    lastIndexed := Date_now (world m);
                    chunkCount := chunkCount |} in
    (Some cache, set_heap (alter (table_set filePath entry) (files cache) (heap m)) m).

(** [const { [filePath]: removed, ...remainingFiles } = cache.files;
    return { ...cache, files: remainingFiles }]: the rest pattern builds a
    new table from the own properties of the old one. *)
Definition removeCacheEntry (cache : ClientCache) (filePath : string) : M ClientCache :=
  fun m =>
    let remainingFiles := table_rest filePath (default ∅ (heap m !! files cache)) in
    let table := fresh (dom (heap m)) in
    (Some {| gitBranch := gitBranch cache;
             deletedFiles := deletedFiles cache;
             files := table |},
     set_heap (<[table := remainingFiles]> (heap m)) m).

Definition addDeletedFile (cache : ClientCache) (filePath : string) : ClientCache :=
  if bool_decide (filePath ∈ deletedFiles cache) then cache
  else {| gitBranch := gitBranch cache;
          deletedFiles := deletedFiles cache ++ [filePath];
          files := files cache |}.

Definition removeDeletedFile (cache : ClientCache) (filePath : string) : ClientCache :=
  {| gitBranch := gitBranch cache;
     deletedFiles := List.filter (fun f => negb (String.eqb f filePath)) (deletedFiles cache);
     files := files cache |}.

(** [const cached = cache.files[filePath];
    return !cached || cached.hash !== currentHash].  When [cached] is not a
    stored entry it is [undefined], or a value without a property [hash] (a
    member of [Object.prototype], or the string or number an entry serving
    as prototype holds): the answer is [true] in each case. *)
Definition shouldIndexFile (cache : ClientCache) (filePath currentHash : string) : M bool :=
  fun m =>
    let cached := table_get (default ∅ (heap m !! files cache)) filePath in
    (Some match cached with
          | None => true
          | Some entry => negb (String.eqb (hash entry) currentHash)
          end, m).

(** The contents of a cache as a reader sees them in machine [m]:
    the branch, the deleted files and the table behind [files]. *)
Definition contents (m : Machine) (cache : ClientCache)
  : string * list string * option (Table FileEntry) :=
  (gitBranch cache, deletedFiles cache, heap m !! files cache).
End WithHost.
End Cache.

(** ** indexer.ts *)

Module Indexer.
Import JS Eff Git.

Record ManagedIndexingConfig := {
  organizationId : string;
  projectId : string;
  kilocodeToken : string;
  workspacePath : string;
  chunker : Chunker.ChunkerConfig;
  batchSize : Z;
  autoSync : bool
}.

Section WithHost.
Context `{Host}.

Definition search (query : string) (config : ManagedIndexingConfig) (path : option string)
  : M (list SearchResult) :=
  try_catch
    (gitBranch <- getCurrentBranch (workspacePath config) ;;
     (* let excludeFiles = []; if (gitBranch !== "main" && ...) { try ... catch ... } *)
     excludeFiles <-
       (if negb (String.eqb gitBranch "main") && negb (String.eqb gitBranch "master")
           && negb (String.eqb gitBranch "develop")
        then try_catch
               (diff <- getGitDiff gitBranch "main" (workspacePath config) ;;
                ret (deleted diff))
               (ret [])
        else ret []) ;;
     results <- apiSearchCode
                  {| query := query;
                     req_organizationId := organizationId config;
                     req_projectId := projectId config;
                     preferBranch := gitBranch;
                     fallbackBranch := "main";
                     excludeFiles := excludeFiles;
                     path := path |}
                  (kilocodeToken config) ;;
     ret results)
    throw.
End WithHost.
End Indexer.

(** ** watcher.ts *)

Module Watcher.
Import JS Eff Cache Indexer.

Inductive ChangeType := created | changed | deleted.

Record FileChangeEvent := {
  type : ChangeType;
  filePath : string;
  timestamp : Z
}.

Definition is_type (t : ChangeType) (e : FileChangeEvent) : bool :=
  match t, type e with
  | created, created | changed, changed | deleted, deleted => true
  | _, _ => false
  end.

(** A call [processChangeQueue] makes to a per-file handler or to the
    callback. *)
Inductive Call :=
| CallHandleFileDeleted (event : FileChangeEvent)
| CallIndexFile (event : FileChangeEvent)
| CallOnFilesChanged (events : list FileChangeEvent).

(** The per-file handlers of [./scanner], which is not among the sources:
    each takes the cache and resolves to the updated cache, or rejects. *)
Class Scanner `{Host} := {
  handleFileDeleted :
    string -> ManagedIndexingConfig -> ExtensionContext -> LoadedCache -> M LoadedCache;
  indexFile :
    string -> ManagedIndexingConfig -> ExtensionContext -> LoadedCache -> M LoadedCache
}.

Section WithHost.
Context `{Host} `{Hashing} `{!Scanner}.

(** A run of the batch handler: the machine, and the calls made so far to
    the handlers and the callback, oldest first. *)
Record Run := {
  machine : Machine;
  calls : list Call
}.

Definition start (m : Machine) : Run := {| machine := m; calls := [] |}.

(** A step of the engine itself, which calls no handler. *)
Definition lift {A} (step : M A) (r : Run) : option A * Run :=
  let '(result, m) := step (machine r) in
  (result, {| machine := m; calls := calls r |}).

(** [await callee(...)]: the call is made, and what is called runs on the
    machine until it resolves or rejects. *)
Definition invoke {A} (call : Call) (callee : M A) (r : Run) : option A * Run :=
  let '(result, m) := callee (machine r) in
  (result, {| machine := m; calls := calls r ++ [call] |}).

Variable config : ManagedIndexingConfig.
Variable context : ExtensionContext.

(** [try { cache = await step } catch (error) { logger.error(...) }]:
    when the handler rejects, [cache] keeps its value. *)
Definition attempt (step : Run -> option LoadedCache * Run) (cache : LoadedCache) (r : Run)
  : LoadedCache * Run :=
  match step r with
  | (Some cache', r') => (cache', r')
  | (None, r') => (cache, r')
  end.

(** [for (const event of deleted) { try { cache = await handleFileDeleted(...) } catch ... }] *)
Fixpoint processDeleted (events : list FileChangeEvent) (cache : LoadedCache) (r : Run)
  : LoadedCache * Run :=
  match events with
  | [] => (cache, r)
  | event :: rest =>
      let '(cache1, r1) :=
        attempt (invoke (CallHandleFileDeleted event)
                   (handleFileDeleted (filePath event) config context cache))
          cache r in
      processDeleted rest cache1 r1
  end.

(** [for (const event of toIndex) { try { cache = await indexFile(...) } catch ... }] *)
Fixpoint processToIndex (events : list FileChangeEvent) (cache : LoadedCache) (r : Run)
  : LoadedCache * Run :=
  match events with
  | [] => (cache, r)
  | event :: rest =>
      let '(cache1, r1) :=
        attempt (invoke (CallIndexFile event)
                   (indexFile (filePath event) config context cache))
          cache r in
      processToIndex rest cache1 r1
  end.

(** [processChangeQueue] resolves in every case (its outer [catch] only
    logs), so the result is the run it leaves.  [onFilesChanged] is the
    optional callback; what it returns is dropped, and what it throws is
    caught by the outer [catch]. *)
Definition processChangeQueue (events : list FileChangeEvent)
    (onFilesChanged : option (list FileChangeEvent -> M unit)) (r : Run) : Run :=
  if arr_length events =? 0 then r
  else
    match lift (loadClientCache context (workspacePath config)) r with
    | (None, r1) => r1
    | (Some cache, r1) =>
        let created_ := List.filter (is_type created) events in
        let changed_ := List.filter (is_type changed) events in
        let deleted_ := List.filter (is_type deleted) events in
        let '(cache, r2) := processDeleted deleted_ cache r1 in
        let toIndex := created_ ++ changed_ in
        let '(cache, r3) := processToIndex toIndex cache r2 in
        match onFilesChanged with
        | Some callback => snd (invoke (CallOnFilesChanged events) (callback events) r3)
        | None => r3
        end
    end.
End WithHost.
End Watcher.

(** ** Vocabulary of the statements *)

Module Props.
Import JS Chunker.

(** The character [c] occurs in [s]. *)
Fixpoint occurs (c : ascii) (s : string) : bool :=
  match s with
  | EmptyString => false
  | String d rest => Ascii.eqb d c || occurs c rest
  end.

Definition newline : string := String LF EmptyString.

(** The lines of a file and of a chunk. *)
Definition lines_of (content : string) : list string := split LF content.
Definition chunk_lines (c : ManagedCodeChunk) : list string := split LF (codeChunk c).

(** The length of the longest line of [content]. *)
Definition max_line_len (content : string) : Z :=
  foldr Z.max 0 (map str_length (lines_of content)).

(** The lines a chunk of lines [seg] leaves to its successor:
    [seg.slice(Math.max(0, seg.length - overlapLines))]. *)
Definition overlap_of (overlapLines : Z) (seg : list string) : list string :=
  slice_from seg (Z.max 0 (arr_length seg - overlapLines)).

(** Each segment starts with the overlap of the one before it. *)
Fixpoint linked (overlapLines : Z) (segs : list (list string)) : Prop :=
  match segs with
  | A :: (B :: _) as rest => overlap_of overlapLines A `prefix_of` B /\ linked overlapLines rest
  | _ => True
  end.

(** The size a chunk can reach, counted as the loop counts it (one more
    than the length of its text), for lines of at most [longest] characters. *)
Definition chars_bound (cfg : ChunkerConfig) (longest : Z) : Z :=
  Z.max (maxChunkChars cfg)
    (Z.max (minChunkChars cfg - 1 + (longest + 1))
           ((Z.max (overlapLines cfg) 0 + 1) * (longest + 1))).

(** What holds of a chunk made from the lines [lines] of a file. *)
Definition chunk_ok (cfg : ChunkerConfig) (lines : list string) (longest : Z)
    (c : ManagedCodeChunk) : Prop :=
  1 <= startLine c <= endLine c /\ endLine c <= arr_length lines /\
  slice lines (startLine c - 1) (endLine c) <> [] /\
  codeChunk c = join newline (slice lines (startLine c - 1) (endLine c)) /\
  minChunkChars cfg <= str_length (codeChunk c) + 1 /\
  str_length (codeChunk c) + 1 <= chars_bound cfg longest.

(** The loop invariant of [chunkFile] once the first [n] lines are read. *)
Definition loop_inv (cfg : ChunkerConfig) (lines : list string) (longest : Z)
    (n : nat) (st : LoopState) : Prop :=
  (n <= length lines)%nat /\
  currentChunk st `suffix_of` take n lines /\
  currentChunkChars st = chars_of (currentChunk st) /\
  startLine_var st = Z.of_nat n + 1 - arr_length (currentChunk st) /\
  currentChunkChars st <= chars_bound cfg longest /\
  Forall (chunk_ok cfg lines longest) (chunks st) /\
  linked (overlapLines cfg) (map chunk_lines (chunks st) ++ [currentChunk st]).

(** A stand-in for the platform's hash functions, for running the
    definitions on examples; no statement depends on what it computes. *)
Definition tagging_hashes : Hashing :=
  {| sha256_hex := fun s => "sha256:" +:+ s;
     uuidv5 := fun name namespace => "uuid5:" +:+ namespace +:+ ":" +:+ name |}.

(** An organization id that [uuid.v5] accepts as a namespace. *)
Definition org_uuid : string := "6ba7b810-9dad-11d1-80b4-00c04fd430c8".

Definition config_of (maxChars minChars overlap : Z) : option PartialChunkerConfig :=
  Some {| maxChunkChars_opt := Some maxChars;
          minChunkChars_opt := Some minChars;
          overlapLines_opt := Some overlap |}.

Definition text_of (lines : list string) : string := join newline lines.

(** Two example files. *)
Definition two_words : string := text_of ["abcd"; "efghij"].
Definition two_long_lines : string := text_of ["aaaaaaaaaaaa"; "bbbbbbbbbbbb"].

(** *** Git status lines, in the words of the specification

    The entries one line of [git diff --name-status] stands for: the line
    is cut at TAB into a status token and path tokens; the first letter of
    the status decides the list; [A], [M] and [D] take as path all the
    tokens after the first TAB, joined by TAB; [R] gives its old path to
    [deleted] and its new path to [added]; [C] gives its target path to
    [added]; any other letter gives nothing. *)
Definition no_entries : Git.GitDiff :=
  {| Git.added := []; Git.modified := []; Git.deleted := [] |}.

Definition entries_app (a b : Git.GitDiff) : Git.GitDiff :=
  {| Git.added := Git.added a ++ Git.added b;
     Git.modified := Git.modified a ++ Git.modified b;
     Git.deleted := Git.deleted a ++ Git.deleted b |}.

Definition line_entries (line : string) : Git.GitDiff :=
  match split TAB line with
  | status :: first :: more =>
      let path := join (String TAB EmptyString) (first :: more) in
      match first_char status with
      | Some "A"%char => {| Git.added := [path]; Git.modified := []; Git.deleted := [] |}
      | Some "M"%char => {| Git.added := []; Git.modified := [path]; Git.deleted := [] |}
      | Some "D"%char => {| Git.added := []; Git.modified := []; Git.deleted := [path] |}
      | Some "R"%char =>
          match more with
          | new :: _ => {| Git.added := [new]; Git.modified := []; Git.deleted := [first] |}
          | [] => no_entries
          end
      | Some "C"%char =>
          match more with
          | target :: _ => {| Git.added := [target]; Git.modified := []; Git.deleted := [] |}
          | [] => no_entries
          end
      | _ => no_entries
      end
  | _ => no_entries
  end.

(** The entries of a whole output: those of its lines, in order. *)
Definition listed_entries (diffOutput : string) : Git.GitDiff :=
  foldr entries_app no_entries (map line_entries (split LF diffOutput)).

(** *** Base branch

    [branch] verifies locally in machine [m]: [git rev-parse --verify branch]
    succeeds in the workspace. *)
Definition verifies `{Host} (branch workspacePath : string) (m : Eff.Machine) : bool :=
  match git_query ("git rev-parse --verify " +:+ branch) workspacePath (Eff.world m) with
  | Some _ => true
  | None => false
  end.

(** The first of [main], [develop], [master] that verifies, and [main]
    when none does. *)
Definition first_common_branch `{Host} (workspacePath : string) (m : Eff.Machine) : string :=
  hd "main" (List.filter (fun branch => verifies branch workspacePath m)
               ["main"; "develop"; "master"]).

(** *** A scripted host, for running the definitions on examples

    Git answers from a table of command lines; the world records whether
    [git remote set-head origin --auto] has run, after which a second table
    answers.  The disk and the JSON parser are tables as well. *)
Fixpoint table_lookup {V} (table : list (string * V)) (key : string) : option V :=
  match table with
  | [] => None
  | (k, v) :: rest => if String.eqb k key then Some v else table_lookup rest key
  end.

Record Script := {
  git_answers : list (string * string);
  git_answers_after_set_head : list (string * string);
  set_head_succeeds : bool;
  disk : list (string * string);
  json : list (string * JsonValue)
}.

Definition scripted_host (s : Script) : Host :=
  {| World := bool;
     SearchResult := string;
     git_query := fun command _ head_set =>
       table_lookup (if head_set then git_answers_after_set_head s else git_answers s) command;
     git_remote_set_head_auto := fun _ head_set =>
       if set_head_succeeds s then (Some EmptyString, true) else (None, head_set);
     fs_readFile := fun uri _ => table_lookup (disk s) uri;
     Uri_joinPath := fun base name => base +:+ "/" +:+ name;
     JSON_parse := fun text => table_lookup (json s) text;
     Date_now := fun _ => 1700000000000;
     remote_search := fun _ _ w => (Some [], w) |}.

Definition boot (s : Script) : @Eff.Machine (scripted_host s) :=
  @Eff.Build_Machine (scripted_host s) false ∅ [].

(** A checkout on [feature/x] whose remote default branch is [canary];
    [canary] and [main] both exist locally, and [u.ts] was deleted on the
    feature branch. *)
Definition canary_repo : Script :=
  {| git_answers :=
       [("git rev-parse --abbrev-ref HEAD", "feature/x" +:+ newline);
        ("git symbolic-ref refs/remotes/origin/HEAD", "refs/remotes/origin/canary" +:+ newline);
        ("git rev-parse --verify canary", "abc123" +:+ newline);
        ("git rev-parse --verify main", "def456" +:+ newline);
        ("git merge-base main feature/x", "0a1b2c" +:+ newline);
        ("git diff --name-status 0a1b2c..feature/x",
         join (String LF EmptyString) [join (String TAB EmptyString) ["D"; "u.ts"]; ""])];
     git_answers_after_set_head := [];
     set_head_succeeds := false;
     disk := [];
     json := [] |}.

(** A checkout on [main] with no remote and no cache file. *)
Definition plain_repo : Script :=
  {| git_answers :=
       [("git rev-parse --abbrev-ref HEAD", "main" +:+ newline);
        ("git rev-parse --verify main", "def456" +:+ newline)];
     git_answers_after_set_head := [];
     set_head_succeeds := false;
     disk := [];
     json := [] |}.

(** A checkout whose [refs/remotes/origin/HEAD] is not set until
    [git remote set-head origin --auto] has run. *)
Definition unset_head_repo : Script :=
  {| git_answers :=
       [("git rev-parse --abbrev-ref HEAD", "feature/x" +:+ newline);
        ("git rev-parse --verify main", "def456" +:+ newline)];
     git_answers_after_set_head :=
       [("git rev-parse --abbrev-ref HEAD", "feature/x" +:+ newline);
        ("git symbolic-ref refs/remotes/origin/HEAD", "refs/remotes/origin/develop" +:+ newline);
        ("git rev-parse --verify develop", "abc123" +:+ newline);
        ("git rev-parse --verify main", "def456" +:+ newline)];
     set_head_succeeds := true;
     disk := [];
     json := [] |}.

(** A checkout on [main] whose cache file holds an object without
    [files]. *)
Definition stale_cache_repo : Script :=
  {| git_answers := [("git rev-parse --abbrev-ref HEAD", "main" +:+ newline)];
     git_answers_after_set_head := [];
     set_head_succeeds := false;
     disk := [("/storage/managed-index-cache-sha256:/ws-sha256:main.json", "{...}")];
     json := [("{...}", JObject [("gitBranch", JString "main")])] |}.

(** A checkout on [main] whose cache file holds a well-formed cache. *)
Definition cached_repo : Script :=
  {| git_answers := [("git rev-parse --abbrev-ref HEAD", "main" +:+ newline)];
     git_answers_after_set_head := [];
     set_head_succeeds := false;
     disk := [("/storage/managed-index-cache-sha256:/ws-sha256:main.json", "{...}")];
     json := [("{...}",
               JObject [("gitBranch", JString "main"); ("deletedFiles", JArray []);
                        ("files", JObject [])])] |}.

Definition example_config : Indexer.ManagedIndexingConfig :=
  {| Indexer.organizationId := "org";
     Indexer.projectId := "proj";
     Indexer.kilocodeToken := "token";
     Indexer.workspacePath := "/ws";
     Indexer.chunker := getDefaultChunkerConfig;
     Indexer.batchSize := 60;
     Indexer.autoSync := true |}.

(** *** The client cache *)

(** The value [value] has no own property [key] (a value that is not an
    object has none). *)
Definition lacks_field (value : JsonValue) (key : string) : Prop :=
  match value with
  | JObject properties => Cache.own_property properties key = None
  | _ => True
  end.

(** A step of a history of the deleted-files list. *)
Inductive DeletedOp :=
| MarkDeleted (filePath : string)
| UnmarkDeleted (filePath : string).

Definition apply_op (cache : Cache.ClientCache) (op : DeletedOp) : Cache.ClientCache :=
  match op with
  | MarkDeleted filePath => Cache.addDeletedFile cache filePath
  | UnmarkDeleted filePath => Cache.removeDeletedFile cache filePath
  end.

Definition apply_ops (cache : Cache.ClientCache) (ops : list DeletedOp) : Cache.ClientCache :=
  fold_left apply_op ops cache.

Definition example_context : Cache.ExtensionContext :=
  {| Cache.globalStorageUri := "/storage" |}.

Definition example_events : list Watcher.FileChangeEvent :=
  [ {| Watcher.type := Watcher.changed; Watcher.filePath := "/ws/a.ts"; Watcher.timestamp := 1 |};
    {| Watcher.type := Watcher.deleted; Watcher.filePath := "/ws/b.ts"; Watcher.timestamp := 2 |};
    {| Watcher.type := Watcher.created; Watcher.filePath := "/ws/c.ts"; Watcher.timestamp := 3 |} ].

(** A line made of TAB-separated tokens. *)
Definition tabbed (tokens : list string) : string := join (String TAB EmptyString) tokens.

(** *** The watcher *)

Section Handlers.
Context `{Host} `{!Watcher.Scanner}.

Variable config : Indexer.ManagedIndexingConfig.
Variable context : Cache.ExtensionContext.
Variable onFilesChanged : option (list Watcher.FileChangeEvent -> Eff.M unit).

(** The cache variable and the machine after [handler] has run on them: a
    handler that rejects leaves the cache variable as it was. *)
Definition handled (handler : Cache.LoadedCache -> Eff.M Cache.LoadedCache)
    (state : Cache.LoadedCache * Eff.Machine) : Cache.LoadedCache * Eff.Machine :=
  match handler (fst state) (snd state) with
  | (Some cache, m) => (cache, m)
  | (None, m) => (fst state, m)
  end.

(** What a call does to the cache variable and the machine: the handler or
    the callback it names runs. *)
Definition run_call (call : Watcher.Call) (state : Cache.LoadedCache * Eff.Machine)
  : Cache.LoadedCache * Eff.Machine :=
  match call with
  | Watcher.CallHandleFileDeleted event =>
      handled (Watcher.handleFileDeleted (Watcher.filePath event) config context) state
  | Watcher.CallIndexFile event =>
      handled (Watcher.indexFile (Watcher.filePath event) config context) state
  | Watcher.CallOnFilesChanged events =>
      match onFilesChanged with
      | Some callback => (fst state, snd (callback events (snd state)))
      | None => state
      end
  end.

(** The calls of a batch that is handled: the deletions, then the created
    files, then the changed files, each in queue order, then the callback
    if there is one. *)
Definition calls_of_batch (events : list Watcher.FileChangeEvent) : list Watcher.Call :=
  map Watcher.CallHandleFileDeleted (List.filter (Watcher.is_type Watcher.deleted) events)
  ++ map Watcher.CallIndexFile
       (List.filter (Watcher.is_type Watcher.created) events
        ++ List.filter (Watcher.is_type Watcher.changed) events)
  ++ match onFilesChanged with
     | Some _ => [Watcher.CallOnFilesChanged events]
     | None => []
     end.

(** Running calls one after the other, each from the state the one before
    left. *)
Definition run_calls (calls : list Watcher.Call) (state : Cache.LoadedCache * Eff.Machine)
  : Cache.LoadedCache * Eff.Machine :=
  fold_left (fun state call => run_call call state) calls state.
End Handlers.

(** A scanner whose deletion handler rejects and whose index handler
    records the file in the cache it is given. *)
Definition flaky_scanner (s : Script) : @Watcher.Scanner (scripted_host s) :=
  @Watcher.Build_Scanner (scripted_host s)
    (fun _ _ _ _ => Eff.throw)
    (fun filePath _ _ cache =>
       match cache with
       | Cache.Created created =>
           Eff.bind (Cache.updateCacheEntry created filePath "h1" 3)
             (fun updated => Eff.ret (Cache.Created updated))
       | Cache.Parsed _ => Eff.ret cache
       end).

End Props.

(** ** Further vocabulary *)

Module Notions.
Import JS Chunker Props.

(** Every element of a list stands in relation [R] to the next one. *)
Fixpoint chained {A} (R : A -> A -> Prop) (l : list A) : Prop :=
  match l with
  | a :: (b :: _) as rest => R a b /\ chained R rest
  | _ => True
  end.

(** Chunk [B] follows chunk [A]: it starts right after [A], moved back by
    the lines it shares with [A], and ends later. *)
Definition follows (overlapLines : Z) (A B : ManagedCodeChunk) : Prop :=
  startLine B = endLine A + 1 - arr_length (overlap_of overlapLines (chunk_lines A)) /\
  endLine A < endLine B.

(** What the loop of [chunkFile] keeps true of the line numbers once [n]
    lines are read. *)
Definition ranges_inv (overlapLines : Z) (n : nat) (st : LoopState) : Prop :=
  chained (follows overlapLines) (chunks st) /\
  match last (chunks st) with
  | Some A =>
      startLine_var st
      = endLine A + 1 - arr_length (overlap_of overlapLines (chunk_lines A)) /\
      endLine A < Z.of_nat n
  | None => startLine_var st = 1
  end /\
  match chunks st with
  | c :: _ => startLine c = 1
  | [] => True
  end.

(** The fields of a chunk that the call, not the content, decides. *)
Definition chunk_meta `{Hashing} (filePath organizationId projectId gitBranch : string)
    (isBase : bool) (c : ManagedCodeChunk) : Prop :=
  Chunker.filePath c = filePath /\
  Chunker.organizationId c = organizationId /\
  Chunker.projectId c = projectId /\
  Chunker.gitBranch c = gitBranch /\
  Chunker.isBaseBranch c = isBase /\
  chunkHash c = generateChunkHash filePath (startLine c) (endLine c) /\
  id c = generateChunkId (chunkHash c) organizationId gitBranch.

(** The start state of [chunkFile]'s loop. *)
Definition loop_start : LoopState :=
  {| chunks := []; currentChunk := []; currentChunkChars := 0; startLine_var := 1 |}.

(** A status line [STATUS TAB path] and the output that lists a diff one
    entry per line: the additions, then the modifications, then the
    deletions. *)
Definition status_line (status path : string) : string :=
  status +:+ String TAB path.

Definition render_diff (d : Git.GitDiff) : string :=
  join newline
    (map (status_line "A") (Git.added d)
     ++ map (status_line "M") (Git.modified d)
     ++ map (status_line "D") (Git.deleted d)).

(** The request [search] builds on branch [gitBranch] with [excludeFiles]. *)
Definition request_of (query : string) (config : Indexer.ManagedIndexingConfig)
    (path : option string) (gitBranch : string) (excludeFiles : list string) : SearchRequest :=
  {| query := query;
     req_organizationId := Indexer.organizationId config;
     req_projectId := Indexer.projectId config;
     preferBranch := gitBranch;
     fallbackBranch := "main";
     excludeFiles := excludeFiles;
     path := path |}.

(** The handler call an event gets: the deletion handler for a deleted
    file, the index handler for a created or changed one. *)
Definition handler_call (e : Watcher.FileChangeEvent) : Watcher.Call :=
  match Watcher.type e with
  | Watcher.deleted => Watcher.CallHandleFileDeleted e
  | _ => Watcher.CallIndexFile e
  end.

(** A file whose last line is too short to make a chunk of its own. *)
Definition short_tail : string := text_of ["abcdefgh"; "xy"].

(** The file [two_words] with its first line rewritten. *)
Definition two_other_words : string := text_of ["wxyz"; "efghij"].

(** A checkout with two tracked files, listed with stray white space. *)
Definition listing_repo : Script :=
  {| git_answers :=
       [("git rev-parse --abbrev-ref HEAD", "main" +:+ newline);
        ("git ls-files", join newline ["src/a.ts"; "  src/b.ts "; ""; ""])];
     git_answers_after_set_head := [];
     set_head_succeeds := false;
     disk := [];
     json := [] |}.

(** A checkout whose tracked files git prints one per line. *)
Definition clean_listing_repo : Script :=
  {| git_answers :=
       [("git ls-files", join newline (["src/a.ts"; "src/b.ts"] ++ [EmptyString]))];
     git_answers_after_set_head := [];
     set_head_succeeds := false;
     disk := [];
     json := [] |}.

(** A diff with a path that holds a TAB. *)
Definition tabbed_diff : Git.GitDiff :=
  {| Git.added := [tabbed ["dir"; "new.ts"]];
     Git.modified := ["m.ts"];
     Git.deleted := ["old.ts"; "gone.ts"] |}.

(** A cache with two deleted files, its table at address 1. *)
Definition small_cache : Cache.ClientCache :=
  {| Cache.gitBranch := "feature/x";
     Cache.deletedFiles := ["a.ts"; "b.ts"];
     Cache.files := 1%positive |}.

(** A machine whose heap holds one empty table, at address 1. *)
Definition stocked (s : Script) : @Eff.Machine (scripted_host s) :=
  @Eff.Build_Machine (scripted_host s) false {[ 1%positive := ∅ ]} [].

(** An entry recorded with the hash [fileHash]. *)
Definition recorded (fileHash : string) : Eff.FileEntry :=
  {| Eff.hash := fileHash; Eff.lastIndexed := 1700000000000; Eff.chunkCount := 3 |}.

(** A machine whose heap holds, at address 1, a table with an entry for
    [b.ts] and an entry that was recorded for [__proto__]. *)
Definition laden (s : Script) : @Eff.Machine (scripted_host s) :=
  @Eff.Build_Machine (scripted_host s) false
    {[ 1%positive := {| JS.own := {[ "b.ts" := recorded "hb" ]};
                        JS.proto := Some (recorded "hp") |} ]} [].

(** No git at all. *)
Definition no_repo : Script :=
  {| git_answers := [];
     git_answers_after_set_head := [];
     set_head_succeeds := false;
     disk := [];
     json := [] |}.

End Notions.

(* ===================================================================== *)
(** * Part II: the properties                                             *)
(* ===================================================================== *)

(** ** Strings and arrays *)

Section JSFacts.
Import JS Chunker Props.

Lemma length_append (s t : string) :
  String.length (s +:+ t) = (String.length s + String.length t)%nat.
Proof. induction s as [|c s IH]; simpl; [reflexivity | now rewrite IH]. Qed.

Lemma split_not_nil sep s : split sep s <> [].
Proof.
  induction s as [|c s IH]; simpl; [discriminate |].
  destruct (Ascii.eqb c sep); [discriminate |].
  destruct (split sep s); discriminate.
Qed.

Lemma split_no_sep sep s : Forall (fun piece => occurs sep piece = false) (split sep s).
Proof.
  induction s as [|c s IH]; simpl.
  - constructor; [reflexivity | constructor].
  - destruct (Ascii.eqb c sep) eqn:E.
    + constructor; [reflexivity | exact IH].
    + destruct (split sep s) as [|piece pieces].
      * constructor; [simpl; now rewrite E | constructor].
      * inversion IH; subst. constructor; [simpl; now rewrite E | assumption].
Qed.

Lemma split_sep_free sep s : occurs sep s = false -> split sep s = [s].
Proof.
  induction s as [|c s IH]; simpl; [reflexivity |].
  intros Hc. apply orb_false_iff in Hc as [E Hs].
  rewrite E, (IH Hs). reflexivity.
Qed.

Lemma split_append sep s t :
  occurs sep s = false ->
  split sep (s +:+ String sep t) = s :: split sep t.
Proof.
  induction s as [|c s IH]; simpl; intros Hc.
  - now rewrite Ascii.eqb_refl.
  - apply orb_false_iff in Hc as [E Hs]. rewrite E, (IH Hs). reflexivity.
Qed.

(** Splitting a joined array of separator-free pieces gives the array back. *)
Lemma split_join sep (a : list string) :
  a <> [] ->
  Forall (fun piece => occurs sep piece = false) a ->
  split sep (join (String sep EmptyString) a) = a.
Proof.
  induction a as [|x a IH]; [congruence |].
  intros _ Hall. inversion Hall as [|? ? Hx Ha]; subst.
  destruct a as [|y a].
  - simpl. now apply split_sep_free.
  - change (join (String sep EmptyString) (x :: y :: a))
      with (x +:+ String sep (join (String sep EmptyString) (y :: a))).
    rewrite split_append by assumption.
    f_equal. apply IH; [discriminate | assumption].
Qed.

Lemma chars_of_acc (a : list string) (acc : Z) :
  fold_left (fun sum l => sum + str_length l + 1) a acc = acc + chars_of a.
Proof.
  unfold chars_of. revert acc.
  induction a as [|x a IH]; intros acc; simpl; [lia |].
  rewrite (IH (acc + str_length x + 1)), (IH (0 + str_length x + 1)). lia.
Qed.

Lemma chars_of_nil : chars_of [] = 0.
Proof. reflexivity. Qed.

Lemma chars_of_cons x a : chars_of (x :: a) = str_length x + 1 + chars_of a.
Proof. unfold chars_of at 1. simpl. rewrite chars_of_acc. lia. Qed.

Lemma chars_of_app a b : chars_of (a ++ b) = chars_of a + chars_of b.
Proof.
  induction a as [|x a IH]; simpl; [rewrite chars_of_nil; lia |].
  rewrite !chars_of_cons, IH. lia.
Qed.

Lemma chars_of_snoc a x : chars_of (a ++ [x]) = chars_of a + (str_length x + 1).
Proof. rewrite chars_of_app, chars_of_cons, chars_of_nil. lia. Qed.

Lemma chars_of_nonneg a : 0 <= chars_of a.
Proof.
  induction a as [|x a IH]; [rewrite chars_of_nil; lia |].
  rewrite chars_of_cons. unfold str_length. lia.
Qed.

(** The text of a chunk is one character shorter than the loop's count:
    the last line has no newline after it. *)
Lemma str_length_join (a : list string) :
  a <> [] -> str_length (join newline a) = chars_of a - 1.
Proof.
  induction a as [|x a IH]; [congruence |]. intros _.
  destruct a as [|y a].
  - rewrite chars_of_cons, chars_of_nil. cbn [join String.concat]. lia.
  - change (join newline (x :: y :: a)) with (x +:+ String LF (join newline (y :: a))).
    specialize (IH ltac:(discriminate)).
    rewrite (chars_of_cons x). unfold str_length in *. rewrite length_append.
    cbn [String.length]. lia.
Qed.

Lemma chars_of_le (longest : Z) (a : list string) :
  Forall (fun l => str_length l <= longest) a ->
  chars_of a <= arr_length a * (longest + 1).
Proof.
  induction 1 as [|x a Hx Ha IH].
  - rewrite chars_of_nil. unfold arr_length. cbn [length]. lia.
  - rewrite chars_of_cons. unfold arr_length in *. cbn [length]. lia.
Qed.

Lemma slice_from_drop {A} (a : list A) (k : Z) :
  0 <= k -> slice_from a k = drop (Z.to_nat k) a.
Proof.
  intros Hk. unfold slice_from, slice, clamp_index, arr_length.
  destruct (Z.ltb_spec k 0); [lia |].
  destruct (Z.ltb_spec (Z.of_nat (length a)) 0); [lia |].
  rewrite Z.min_id.
  destruct (Z.le_gt_cases k (Z.of_nat (length a))).
  - rewrite Z.min_l by lia. apply take_ge. rewrite length_drop. lia.
  - rewrite Z.min_r by lia. rewrite !drop_ge by lia. now rewrite take_nil.
Qed.

Lemma slice_take_drop {A} (a : list A) (i j : nat) :
  (i <= j <= length a)%nat ->
  slice a (Z.of_nat i) (Z.of_nat j) = drop i (take j a).
Proof.
  intros Hij. unfold slice, clamp_index, arr_length.
  destruct (Z.ltb_spec (Z.of_nat i) 0); [lia |].
  destruct (Z.ltb_spec (Z.of_nat j) 0); [lia |].
  rewrite !Z.min_l by lia. rewrite Nat2Z.id.
  replace (Z.to_nat (Z.of_nat j - Z.of_nat i)) with (j - i)%nat by lia.
  now rewrite skipn_firstn_comm.
Qed.

End JSFacts.

(** ** The chunker *)

Section ChunkerFacts.
Import JS Chunker Props.
Context `{Hashing}.

Lemma chunk_lines_createChunk (seg : list string) (s e : Z)
    (filePath fileHash organizationId projectId gitBranch : string) (isBase : bool) :
  seg <> [] ->
  Forall (fun l => occurs LF l = false) seg ->
  chunk_lines (createChunk seg s e filePath fileHash organizationId projectId gitBranch isBase)
  = seg.
Proof. intros Hne Hnl. unfold chunk_lines. simpl. now apply split_join. Qed.

Lemma linked_snoc k (segs : list (list string)) (A B : list string) :
  linked k (segs ++ [A]) ->
  overlap_of k A `prefix_of` B ->
  linked k ((segs ++ [A]) ++ [B]).
Proof.
  induction segs as [|S0 segs IH]; simpl; intros HL HB.
  - split; [exact HB | exact I].
  - destruct segs as [|S1 segs]; simpl in *.
    + destruct HL as [H0 _]. repeat split; assumption.
    + destruct HL as [H0 HL]. split; [exact H0 |]. now apply IH.
Qed.

Lemma linked_grow k (segs : list (list string)) (A : list string) (line : string) :
  linked k (segs ++ [A]) -> linked k (segs ++ [A ++ [line]]).
Proof.
  induction segs as [|S0 segs IH]; simpl; intros HL; [exact I |].
  destruct segs as [|S1 segs]; simpl in *.
  - destruct HL as [H0 _]. split; [now apply prefix_app_r | exact I].
  - destruct HL as [H0 HL]. split; [exact H0 | now apply IH].
Qed.

Lemma linked_init k (segs : list (list string)) (A : list string) :
  linked k (segs ++ [A]) -> linked k segs.
Proof.
  induction segs as [|S0 segs IH]; simpl; intros HL; [exact I |].
  destruct segs as [|S1 segs]; simpl in *; [exact I |].
  destruct HL as [H0 HL]. split; [exact H0 | now apply IH].
Qed.

Lemma linked_adjacent k (pre : list (list string)) (A B : list string) post :
  linked k (pre ++ A :: B :: post) -> overlap_of k A `prefix_of` B.
Proof.
  induction pre as [|S0 pre IH]; simpl.
  - now intros [HAB _].
  - destruct pre as [|S1 pre]; simpl in *; intros [_ HL]; now apply IH.
Qed.

Lemma overlap_of_drop k (seg : list string) :
  overlap_of k seg = drop (Z.to_nat (Z.max 0 (arr_length seg - k))) seg.
Proof. unfold overlap_of. apply slice_from_drop. lia. Qed.

Lemma overlap_of_length k (seg : list string) :
  arr_length (overlap_of k seg) = Z.min (arr_length seg) (Z.max k 0).
Proof. rewrite overlap_of_drop. unfold arr_length. rewrite length_drop. lia. Qed.

Lemma overlap_of_suffix k (seg : list string) : overlap_of k seg `suffix_of` seg.
Proof. rewrite overlap_of_drop. apply suffix_drop. Qed.

Section Invariant.
Variables (filePath fileHash organizationId projectId gitBranch : string).
Variable isBase : bool.
Variable cfg : ChunkerConfig.
Variable lines : list string.
Variable longest : Z.
Hypothesis lines_no_LF : Forall (fun l => occurs LF l = false) lines.
Hypothesis lines_short : Forall (fun l => str_length l <= longest) lines.
Hypothesis longest_nonneg : 0 <= longest.

Let body := loop_body filePath fileHash organizationId projectId gitBranch isBase cfg.
Let run := loop filePath fileHash organizationId projectId gitBranch isBase cfg.
Let mk (seg : list string) (s e : Z) :=
  createChunk seg s e filePath fileHash organizationId projectId gitBranch isBase.

Lemma suffix_of_lines_facts (seg : list string) (n : nat) :
  (n <= length lines)%nat ->
  seg `suffix_of` take n lines ->
  (length seg <= n)%nat /\
  seg = drop (n - length seg) (take n lines) /\
  Forall (fun l => occurs LF l = false) seg /\
  Forall (fun l => str_length l <= longest) seg.
Proof.
  intros Hn [front Hfront].
  assert (Hlen : (length front + length seg = n)%nat).
  { rewrite <- length_app, <- Hfront, length_take. lia. }
  assert (Hsub : forall P : string -> Prop, Forall P lines -> Forall P seg).
  { intros P HP. apply (Forall_take P n) in HP. rewrite Hfront in HP.
    now apply Forall_app in HP as [_ HP]. }
  repeat split; [lia | | now apply Hsub | now apply Hsub].
  rewrite Hfront. replace (n - length seg)%nat with (length front) by lia.
  now rewrite drop_app_length.
Qed.

(** The chunk the loop makes of the pending lines is well formed. *)
Lemma pending_chunk_ok (seg : list string) (n : nat) (s : Z) :
  (n <= length lines)%nat ->
  seg `suffix_of` take n lines ->
  seg <> [] ->
  s = Z.of_nat n + 1 - arr_length seg ->
  minChunkChars cfg <= chars_of seg ->
  chars_of seg <= chars_bound cfg longest ->
  chunk_ok cfg lines longest (mk seg s (Z.of_nat n)) /\
  chunk_lines (mk seg s (Z.of_nat n)) = seg.
Proof.
  intros Hn Hsuf Hne Hs Hmin Hmax.
  destruct (suffix_of_lines_facts seg n Hn Hsuf) as (Hlen & Hseg & Hnl & _).
  assert (Hpos : (0 < length seg)%nat) by (destruct seg; [congruence | simpl; lia]).
  assert (Hslice : slice lines (s - 1) (Z.of_nat n) = seg).
  { replace (s - 1) with (Z.of_nat (n - length seg)) by (unfold arr_length in Hs; lia).
    rewrite slice_take_drop by lia. now symmetry. }
  split; [| now apply chunk_lines_createChunk].
  unfold chunk_ok, mk. cbn [startLine endLine codeChunk createChunk].
  rewrite Hslice. unfold arr_length in *.
  fold newline. rewrite (str_length_join seg Hne).
  repeat split; try lia; try assumption.
Qed.

Lemma loop_body_inv (n : nat) (line : string) (st : LoopState) :
  loop_inv cfg lines longest n st ->
  lines !! n = Some line ->
  loop_inv cfg lines longest (S n) (body (Z.of_nat n) line st).
Proof.
  intros (Hn & Hsuf & Hchars & Hstart & Hbound & Hok & Hlink) Hline.
  assert (Hn' : (S n <= length lines)%nat) by (apply lookup_lt_Some in Hline; lia).
  assert (Htake : take (S n) lines = take n lines ++ [line]) by now apply take_S_r.
  assert (Hl : str_length line <= longest).
  { eapply Forall_lookup_1 in lines_short; [exact lines_short | exact Hline]. }
  assert (Hl0 : 0 <= str_length line) by (unfold str_length; lia).
  destruct (suffix_of_lines_facts _ n Hn Hsuf) as (Hlen & _ & _ & Hshort).
  unfold body, loop_body.
  destruct (Z.gtb_spec (currentChunkChars st + (str_length line + 1)) (maxChunkChars cfg))
    as [Hover | Hfits];
  destruct (Z.gtb_spec (arr_length (currentChunk st)) 0) as [Hsome | Hnone];
  cbn [andb].
  1: destruct (Z.geb_spec (currentChunkChars st) (minChunkChars cfg)) as [Hbig | Hsmall].
  - (* the pending lines become a chunk; the next one starts with the overlap *)
    assert (Hne : currentChunk st <> []).
    { intros E. rewrite E in Hsome. unfold arr_length in Hsome. simpl in Hsome. lia. }
    destruct (pending_chunk_ok (currentChunk st) n (startLine_var st))
      as [Hc Hcl]; try assumption; try lia.
    unfold mk in Hc, Hcl.
    fold (overlap_of (overlapLines cfg) (currentChunk st)).
    set (kept := overlap_of (overlapLines cfg) (currentChunk st)).
    assert (Hkept_suf : kept `suffix_of` currentChunk st) by apply overlap_of_suffix.
    assert (Hkept_len := overlap_of_length (overlapLines cfg) (currentChunk st)).
    fold kept in Hkept_len.
    assert (Hkept_short : Forall (fun l => str_length l <= longest) kept).
    { destruct Hkept_suf as [front ->] in Hshort. now apply Forall_app in Hshort as [_ ?]. }
    apply chars_of_le in Hkept_short.
    unfold loop_inv. cbn [chunks currentChunk currentChunkChars startLine_var].
    repeat split.
    + exact Hn'.
    + rewrite Htake. apply suffix_app. now transitivity (currentChunk st).
    + now rewrite chars_of_snoc.
    + unfold arr_length in *. rewrite length_app. simpl. lia.
    + unfold chars_bound. nia.
    + apply Forall_app. split; [exact Hok | constructor; [exact Hc | constructor]].
    + rewrite map_app. cbn [map]. rewrite Hcl.
      apply linked_snoc; [exact Hlink | now apply prefix_app_r].
  - (* too small to be a chunk yet: keep accumulating *)
    unfold loop_inv. cbn [chunks currentChunk currentChunkChars startLine_var].
    repeat split; try assumption.
    + rewrite Htake. now apply suffix_app.
    + rewrite chars_of_snoc. lia.
    + unfold arr_length in *. rewrite length_app. simpl. lia.
    + unfold chars_bound. lia.
    + now apply linked_grow.
  - (* nothing pending: the line starts a chunk *)
    assert (E : currentChunk st = []).
    { destruct (currentChunk st); [reflexivity |].
      unfold arr_length in Hnone. simpl in Hnone. lia. }
    unfold loop_inv. cbn [chunks currentChunk currentChunkChars startLine_var].
    repeat split; try assumption.
    + rewrite Htake. now apply suffix_app.
    + rewrite chars_of_snoc. lia.
    + unfold arr_length in *. rewrite length_app. simpl. lia.
    + rewrite Hchars, E, chars_of_nil. unfold chars_bound. nia.
    + now apply linked_grow.
  - unfold loop_inv. cbn [chunks currentChunk currentChunkChars startLine_var].
    repeat split; try assumption.
    + rewrite Htake. now apply suffix_app.
    + rewrite chars_of_snoc. lia.
    + unfold arr_length in *. rewrite length_app. simpl. lia.
    + unfold chars_bound. lia.
    + now apply linked_grow.
  - unfold loop_inv. cbn [chunks currentChunk currentChunkChars startLine_var].
    repeat split; try assumption.
    + rewrite Htake. now apply suffix_app.
    + rewrite chars_of_snoc. lia.
    + unfold arr_length in *. rewrite length_app. simpl. lia.
    + unfold chars_bound. lia.
    + now apply linked_grow.
Qed.

Lemma loop_inv_run (remaining : list string) (n : nat) (st : LoopState) :
  loop_inv cfg lines longest n st ->
  drop n lines = remaining ->
  loop_inv cfg lines longest (length lines) (run (Z.of_nat n) remaining st).
Proof.
  revert n st. induction remaining as [|line remaining IH]; intros n st Hinv Hdrop.
  - simpl. assert (length lines <= n)%nat.
    { apply (f_equal length) in Hdrop. rewrite length_drop in Hdrop. simpl in Hdrop. lia. }
    destruct Hinv as (Hn & Hrest). replace (length lines) with n by lia.
    split; assumption.
  - simpl. replace (Z.of_nat n + 1) with (Z.of_nat (S n)) by lia.
    assert (Hline : lines !! n = Some line).
    { rewrite <- (Nat.add_0_r n), <- lookup_drop, Hdrop. reflexivity. }
    apply IH.
    + now apply loop_body_inv.
    + replace (S n) with (n + 1)%nat by lia.
      rewrite <- drop_drop, Hdrop. reflexivity.
Qed.

End Invariant.

Lemma max_line_len_nonneg content : 0 <= max_line_len content.
Proof.
  unfold max_line_len. induction (map str_length (lines_of content)); simpl; lia.
Qed.

Lemma max_line_len_bounds content :
  Forall (fun l => str_length l <= max_line_len content) (lines_of content).
Proof.
  unfold max_line_len. induction (lines_of content) as [|l ls IH]; simpl.
  - constructor.
  - constructor; [lia |]. eapply Forall_impl; [exact IH |]. simpl. intros; lia.
Qed.

Lemma loop_inv_start cfg lines longest :
  0 <= longest ->
  loop_inv cfg lines longest 0
    {| chunks := []; currentChunk := []; currentChunkChars := 0; startLine_var := 1 |}.
Proof.
  intros Hl. unfold loop_inv. cbn [chunks currentChunk currentChunkChars startLine_var].
  repeat split; simpl; try lia.
  - apply suffix_nil.
  - unfold chars_bound. nia.
  - constructor.
Qed.

(** Every chunk [chunkFile]'s loop and its final step produce is well
    formed, and each starts with the overlap of the one before it. *)
Lemma chunkFile_ok filePath content fileHash organizationId projectId gitBranch isBase config :
  let produced :=
    chunkFile filePath content fileHash organizationId projectId gitBranch isBase config in
  let cfg := resolveConfig config in
  Forall (chunk_ok cfg (lines_of content) (max_line_len content)) produced /\
  linked (overlapLines cfg) (map chunk_lines produced).
Proof.
  intros produced cfg. subst produced. unfold chunkFile. fold cfg. fold (lines_of content).
  set (lines := lines_of content).
  set (longest := max_line_len content).
  assert (Hnl : Forall (fun l => occurs LF l = false) lines) by apply split_no_sep.
  assert (Hshort : Forall (fun l => str_length l <= longest) lines)
    by apply max_line_len_bounds.
  assert (Hlong : 0 <= longest) by apply max_line_len_nonneg.
  pose proof (loop_inv_run filePath fileHash organizationId projectId gitBranch isBase
                cfg lines longest Hnl Hshort Hlong lines 0%nat _
                (loop_inv_start cfg lines longest Hlong) eq_refl) as Hinv.
  cbn [Z.of_nat] in Hinv.
  set (st := loop _ _ _ _ _ _ _ _ _ _) in *.
  destruct Hinv as (Hn & Hsuf & Hchars & Hstart & Hbound & Hok & Hlink).
  unfold finalize.
  destruct (Z.gtb_spec (arr_length (currentChunk st)) 0) as [Hsome | Hnone];
  [ destruct (Z.geb_spec (currentChunkChars st) (minChunkChars cfg)) as [Hbig | Hsmall] |];
  cbn [andb].
  - assert (Hne : currentChunk st <> []).
    { intros E. rewrite E in Hsome. unfold arr_length in Hsome. simpl in Hsome. lia. }
    destruct (pending_chunk_ok filePath fileHash organizationId projectId gitBranch isBase
                cfg lines longest Hnl Hshort (currentChunk st) (length lines) (startLine_var st))
      as [Hc Hcl]; try assumption; try lia.
    split.
    + apply Forall_app. split; [exact Hok | constructor; [exact Hc | constructor]].
    + rewrite map_app. cbn [map]. unfold arr_length. rewrite Hcl. exact Hlink.
  - split; [exact Hok | now apply linked_init in Hlink].
  - split; [exact Hok | now apply linked_init in Hlink].
Qed.

(** C1 (as amended).  Every chunk [chunkFile] returns carries the lines
    [startLine .. endLine] of the file joined by newlines, and the length of
    its text plus one (the loop counts a newline after every line, the last
    one too) is at least [minChunkChars]; this holds of the last chunk as
    of the others. *)
Theorem chunkFile_coverage
    (filePath content fileHash organizationId projectId gitBranch : string)
    (isBase : bool) (config : option PartialChunkerConfig) (c : ManagedCodeChunk) :
  In c (chunkFile filePath content fileHash organizationId projectId gitBranch isBase config) ->
  1 <= startLine c <= endLine c /\ endLine c <= arr_length (split LF content) /\
  codeChunk c = join (String LF EmptyString)
                  (slice (split LF content) (startLine c - 1) (endLine c)) /\
  minChunkChars (resolveConfig config) <= str_length (codeChunk c) + 1.
Proof.
  intros Hin.
  destruct (chunkFile_ok filePath content fileHash organizationId projectId gitBranch isBase
              config) as [Hok _].
  apply list_elem_of_In in Hin.
  rewrite Forall_forall in Hok. specialize (Hok c Hin).
  destruct Hok as (Hse & Hend & _ & Hcode & Hmin & _).
  repeat split; try assumption; lia.
Qed.

(** C3 (as amended).  The length of a chunk's text is at most the largest
    of [maxChunkChars - 1], [minChunkChars - 1 + max_line_len] and
    [(max(overlapLines, 0) + 1) * (max_line_len + 1) - 1]: besides the
    overflow by one line, a chunk keeps growing while it is below
    [minChunkChars], and it starts with the overlap lines whatever their
    size. *)
Theorem chunkFile_bounded
    (filePath content fileHash organizationId projectId gitBranch : string)
    (isBase : bool) (config : option PartialChunkerConfig) (c : ManagedCodeChunk) :
  In c (chunkFile filePath content fileHash organizationId projectId gitBranch isBase config) ->
  str_length (codeChunk c) <=
    Z.max (maxChunkChars (resolveConfig config) - 1)
      (Z.max (minChunkChars (resolveConfig config) - 1 + max_line_len content)
         ((Z.max (overlapLines (resolveConfig config)) 0 + 1) * (max_line_len content + 1) - 1)).
Proof.
  intros Hin.
  destruct (chunkFile_ok filePath content fileHash organizationId projectId gitBranch isBase
              config) as [Hok _].
  apply list_elem_of_In in Hin.
  rewrite Forall_forall in Hok. specialize (Hok c Hin).
  destruct Hok as (_ & _ & _ & _ & _ & Hbound).
  unfold chars_bound in Hbound. lia.
Qed.

(** Without overlap, with [minChunkChars <= maxChunkChars + 1] and a
    non-negative [maxChunkChars], the bound is the one line of overflow. *)
Lemma chunkFile_bounded_no_overlap
    (filePath content fileHash organizationId projectId gitBranch : string)
    (isBase : bool) (config : option PartialChunkerConfig) (c : ManagedCodeChunk) :
  overlapLines (resolveConfig config) <= 0 ->
  minChunkChars (resolveConfig config) <= maxChunkChars (resolveConfig config) + 1 ->
  0 <= maxChunkChars (resolveConfig config) ->
  In c (chunkFile filePath content fileHash organizationId projectId gitBranch isBase config) ->
  str_length (codeChunk c) <= maxChunkChars (resolveConfig config) + max_line_len content.
Proof.
  intros Hk Hmin Hmax Hin.
  destruct (chunkFile_ok filePath content fileHash organizationId projectId gitBranch isBase
              config) as [Hok _].
  apply list_elem_of_In in Hin.
  rewrite Forall_forall in Hok. specialize (Hok c Hin).
  destruct Hok as (_ & _ & _ & _ & _ & Hbound).
  pose proof (max_line_len_nonneg content).
  unfold chars_bound in Hbound. rewrite (Z.max_r _ 0) in Hbound by lia. lia.
Qed.

(** C6.  When chunk [A] is followed by chunk [B] and [overlapLines = k > 0],
    the last [min(k, number of lines of A)] lines of [A] are the first
    lines of [B]. *)
Theorem chunkFile_overlap
    (filePath content fileHash organizationId projectId gitBranch : string)
    (isBase : bool) (config : option PartialChunkerConfig)
    (before : list ManagedCodeChunk) (A B : ManagedCodeChunk) (after : list ManagedCodeChunk) :
  chunkFile filePath content fileHash organizationId projectId gitBranch isBase config
  = before ++ A :: B :: after ->
  0 < overlapLines (resolveConfig config) ->
  let n := Z.to_nat (Z.min (overlapLines (resolveConfig config)) (arr_length (chunk_lines A))) in
  drop (length (chunk_lines A) - n) (chunk_lines A) = take n (chunk_lines B).
Proof.
  intros Heq Hk n.
  destruct (chunkFile_ok filePath content fileHash organizationId projectId gitBranch isBase
              config) as [_ Hlink].
  rewrite Heq, map_app in Hlink. cbn [map] in Hlink.
  apply linked_adjacent in Hlink.
  pose proof (overlap_of_length (overlapLines (resolveConfig config)) (chunk_lines A)) as Hlen.
  rewrite overlap_of_drop in Hlink, Hlen.
  unfold arr_length in *.
  replace (Z.to_nat (Z.max 0 (Z.of_nat (length (chunk_lines A)) - overlapLines (resolveConfig config))))
    with (length (chunk_lines A) - n)%nat in * by (subst n; lia).
  destruct Hlink as [rest Hrest]. rewrite Hrest.
  rewrite take_app_length'; [reflexivity |].
  rewrite length_drop. subst n. lia.
Qed.

End ChunkerFacts.

(** ** The chunker on examples *)

Section ChunkerExamples.
Import JS Chunker Props.

Example chunkFile_two_words :
  map (fun c => (codeChunk c, startLine c, endLine c))
    (@chunkFile tagging_hashes "a.ts" two_words "h" org_uuid "proj" "main" true (config_of 10 5 0))
  = [("abcd", 1, 1); ("efghij", 2, 2)].
Proof. vm_compute. reflexivity. Qed.

Example chunkFile_two_long_lines :
  map (fun c => (str_length (codeChunk c), startLine c, endLine c))
    (@chunkFile tagging_hashes "a.ts" two_long_lines "h" org_uuid "proj" "main" true
       (config_of 10 5 5))
  = [(12, 1, 1); (25, 1, 2)].
Proof. vm_compute. reflexivity. Qed.

Lemma chunkFile_coverage_witness :
  exists c,
    In c (@chunkFile tagging_hashes "a.ts" two_words "h" org_uuid "proj" "main" true
            (config_of 10 5 0)) /\
    (1 <= startLine c <= endLine c /\ endLine c <= arr_length (split LF two_words) /\
     codeChunk c = join (String LF EmptyString)
                     (slice (split LF two_words) (startLine c - 1) (endLine c)) /\
     minChunkChars (resolveConfig (config_of 10 5 0)) <= str_length (codeChunk c) + 1).
Proof.
  eexists.
  refine ((fun Hin => conj Hin
             (@chunkFile_coverage tagging_hashes "a.ts" two_words "h" org_uuid "proj" "main"
                true (config_of 10 5 0) _ Hin)) _).
  vm_compute. left. reflexivity.
Defined.

(** C1 as stated fails: with [maxChunkChars = 10], [minChunkChars = 5] and
    no overlap, the file of the two lines [abcd] and [efghij] gives the
    chunks [abcd] and [efghij]; the first has 4 characters and is not the
    last.  The organization id is the UUID [org_uuid], so that [uuid.v5]
    accepts it and the call returns. *)
Lemma chunkFile_coverage_counterexample :
  ~ (forall c,
       In c (@chunkFile tagging_hashes "a.ts" two_words "h" org_uuid "proj" "main" true
               (config_of 10 5 0)) ->
       codeChunk c = join (String LF EmptyString)
                       (slice (split LF two_words) (startLine c - 1) (endLine c)) /\
       (minChunkChars (resolveConfig (config_of 10 5 0)) <= str_length (codeChunk c) \/
        (last (@chunkFile tagging_hashes "a.ts" two_words "h" org_uuid "proj" "main" true
                 (config_of 10 5 0)) = Some c /\
         1 <= arr_length (split LF two_words)))).
Proof.
  intros Hall.
  remember (@chunkFile tagging_hashes "a.ts" two_words "h" org_uuid "proj" "main" true
              (config_of 10 5 0)) as produced eqn:E.
  vm_compute in E. subst produced.
  specialize (Hall _ (or_introl eq_refl)).
  destruct Hall as [_ [Hlen | [Hlast _]]].
  - vm_compute in Hlen. apply Hlen. reflexivity.
  - vm_compute in Hlast. discriminate Hlast.
Qed.

Lemma chunkFile_bounded_witness :
  exists c,
    In c (@chunkFile tagging_hashes "a.ts" two_long_lines "h" org_uuid "proj" "main" true
            (config_of 10 5 5)) /\
    str_length (codeChunk c) <=
      Z.max (maxChunkChars (resolveConfig (config_of 10 5 5)) - 1)
        (Z.max (minChunkChars (resolveConfig (config_of 10 5 5)) - 1
                + max_line_len two_long_lines)
           ((Z.max (overlapLines (resolveConfig (config_of 10 5 5))) 0 + 1)
            * (max_line_len two_long_lines + 1) - 1)).
Proof.
  eexists.
  refine ((fun Hin => conj Hin
             (@chunkFile_bounded tagging_hashes "a.ts" two_long_lines "h" org_uuid "proj" "main"
                true (config_of 10 5 5) _ Hin)) _).
  vm_compute. right. left. reflexivity.
Defined.

(** C3 as stated fails: with [maxChunkChars = 10], [minChunkChars = 5] and
    [overlapLines = 5], two lines of 12 characters give a first chunk of
    the first line and a second chunk of both lines, 25 characters long,
    more than 10 + 12.  The organization id is the UUID [org_uuid], so that
    [uuid.v5] accepts it and the call returns. *)
Lemma chunkFile_bounded_counterexample :
  ~ (forall c,
       In c (@chunkFile tagging_hashes "a.ts" two_long_lines "h" org_uuid "proj" "main" true
               (config_of 10 5 5)) ->
       str_length (codeChunk c) <=
         maxChunkChars (resolveConfig (config_of 10 5 5)) + max_line_len two_long_lines).
Proof.
  intros Hall.
  remember (@chunkFile tagging_hashes "a.ts" two_long_lines "h" org_uuid "proj" "main" true
              (config_of 10 5 5)) as produced eqn:E.
  vm_compute in E. subst produced.
  specialize (Hall _ (or_intror (or_introl eq_refl))).
  vm_compute in Hall. apply Hall. reflexivity.
Qed.

Lemma chunkFile_overlap_witness :
  exists A B,
    @chunkFile tagging_hashes "a.ts" two_long_lines "h" org_uuid "proj" "main" true
      (config_of 10 5 5) = [] ++ A :: B :: [] /\
    0 < overlapLines (resolveConfig (config_of 10 5 5)) /\
    drop (length (chunk_lines A)
          - Z.to_nat (Z.min (overlapLines (resolveConfig (config_of 10 5 5)))
                        (arr_length (chunk_lines A))))
      (chunk_lines A)
    = take (Z.to_nat (Z.min (overlapLines (resolveConfig (config_of 10 5 5)))
                        (arr_length (chunk_lines A))))
        (chunk_lines B).
Proof.
  eexists. eexists.
  refine ((fun Heq Hk => conj Heq (conj Hk
             (@chunkFile_overlap tagging_hashes "a.ts" two_long_lines "h" org_uuid "proj" "main"
                true (config_of 10 5 5) [] _ _ [] Heq Hk))) _ _).
  - vm_compute. reflexivity.
  - vm_compute. reflexivity.
Defined.

End ChunkerExamples.

(** ** The git probe *)

Section GitFacts.
Import JS Eff Git Props.

Lemma entries_app_no_entries_r d : entries_app d no_entries = d.
Proof. destruct d. unfold entries_app. simpl. now rewrite !app_nil_r. Qed.

Lemma entries_app_no_entries_l d : entries_app no_entries d = d.
Proof. now destruct d. Qed.

Lemma entries_app_assoc a b c :
  entries_app (entries_app a b) c = entries_app a (entries_app b c).
Proof. unfold entries_app. simpl. now rewrite !app_assoc. Qed.

Lemma slice_from_one {A} (x : A) (rest : list A) : slice_from (x :: rest) 1 = rest.
Proof. rewrite slice_from_drop by lia. reflexivity. Qed.

(** The loop body adds to the lists exactly the entries of the line. *)
Lemma parseLine_entries acc line :
  parseLine acc line = entries_app acc (line_entries line).
Proof.
  unfold parseLine, line_entries.
  destruct (split TAB line) as [|status [|first more]].
  - now rewrite entries_app_no_entries_r.
  - now rewrite entries_app_no_entries_r.
  - replace (arr_length (status :: first :: more) <? 2) with false
      by (symmetry; apply Z.ltb_ge; unfold arr_length; simpl length; lia).
    rewrite slice_from_one. cbn [hd].
    destruct (first_char status) as [c |]; [| now rewrite entries_app_no_entries_r].
    destruct c as [[] [] [] [] [] [] [] []];
      try (now rewrite entries_app_no_entries_r);
      try destruct more;
      unfold entries_app, no_entries; cbn [added modified deleted];
      rewrite ?app_nil_r; destruct acc; reflexivity.
Qed.

Lemma fold_parseLine lines acc :
  fold_left parseLine lines acc
  = entries_app acc (foldr entries_app no_entries (map line_entries lines)).
Proof.
  revert acc. induction lines as [|line lines IH]; intros acc; simpl.
  - now rewrite entries_app_no_entries_r.
  - now rewrite IH, parseLine_entries, entries_app_assoc.
Qed.

Lemma trim_empty_first s :
  trim s = EmptyString ->
  match s with EmptyString => True | String c _ => is_white_space c = true end.
Proof.
  destruct s as [|c rest]; [trivial |].
  unfold trim. cbn [trim_start].
  destruct (is_white_space c) eqn:E; [reflexivity |].
  cbn [trim_end]. rewrite E. destruct (trim_end rest); discriminate.
Qed.

(** A line of white space stands for no entry, so dropping such lines
    changes nothing. *)
Lemma blank_line_entries line :
  truthy (trim line) = false -> line_entries line = no_entries.
Proof.
  intros Hblank.
  assert (Htrim : trim line = EmptyString) by (destruct (trim line); [reflexivity | discriminate]).
  apply trim_empty_first in Htrim.
  destruct line as [|c rest]; [reflexivity |].
  unfold line_entries. cbn [split].
  destruct (Ascii.eqb_spec c TAB) as [-> | Hc].
  - destruct (split TAB rest) as [|first more]; reflexivity.
  - destruct (split TAB rest) as [|piece [|first more]]; try reflexivity.
    cbn [first_char].
    destruct c as [[] [] [] [] [] [] [] []]; try reflexivity; discriminate Htrim.
Qed.

Lemma listed_entries_filter lines :
  foldr entries_app no_entries
    (map line_entries (List.filter (fun line => truthy (trim line)) lines))
  = foldr entries_app no_entries (map line_entries lines).
Proof.
  induction lines as [|line lines IH]; [reflexivity |].
  cbn [List.filter]. destruct (truthy (trim line)) eqn:E; cbn [map foldr].
  - now rewrite IH.
  - now rewrite (blank_line_entries line E), entries_app_no_entries_l.
Qed.

(** C4.  [parseDiffOutput] gives, for every output, the entries of its
    lines in order, each line sorted by the first letter of its status as
    the specification says; in particular a rename line gives a deletion
    and an addition, and a deletion line a deletion. *)
Theorem parseDiffOutput_entries :
  (forall diffOutput, parseDiffOutput diffOutput = listed_entries diffOutput) /\
  parseDiffOutput (tabbed ["R100"; "old.ts"; "new.ts"])
  = {| added := ["new.ts"]; modified := []; deleted := ["old.ts"] |} /\
  parseDiffOutput (tabbed ["D"; "foo.ts"])
  = {| added := []; modified := []; deleted := ["foo.ts"] |}.
Proof.
  split; [| split; reflexivity].
  intros diffOutput. unfold parseDiffOutput, listed_entries.
  now rewrite fold_parseLine, listed_entries_filter, entries_app_no_entries_l.
Qed.


Section WithHost.
Context `{Host}.

Lemma execSync_query command cwd (m : Machine) :
  String.eqb command set_head_command = false ->
  execSync command cwd m = (git_query command cwd (world m), m).
Proof. intros E. unfold execSync. now rewrite E. Qed.

Lemma getCurrentBranch_run workspacePath (m : Machine) :
  getCurrentBranch workspacePath m
  = (trim <$> git_query "git rev-parse --abbrev-ref HEAD" workspacePath (world m), m).
Proof.
  unfold getCurrentBranch, try_catch, bind, throw, ret.
  rewrite execSync_query by reflexivity.
  now destruct (git_query _ _ _).
Qed.

Lemma getGitDiff_pure featureBranch baseBranch workspacePath (m : Machine) :
  snd (getGitDiff featureBranch baseBranch workspacePath m) = m.
Proof.
  unfold getGitDiff, try_catch, bind, throw, ret.
  rewrite execSync_query by reflexivity.
  destruct (git_query _ _ _); [| reflexivity].
  rewrite execSync_query by reflexivity.
  now destruct (git_query _ _ _).
Qed.

Lemma tryVerify_run branch workspacePath (m : Machine) :
  tryVerify branch workspacePath m
  = (Some (if verifies branch workspacePath m then Some branch else None), m).
Proof.
  unfold tryVerify, try_catch, bind, ret, verifies.
  rewrite execSync_query by reflexivity.
  now destruct (git_query _ _ _).
Qed.

Lemma firstVerified_run branches workspacePath (m : Machine) :
  firstVerified branches workspacePath m
  = (Some (head (List.filter (fun branch => verifies branch workspacePath m) branches)), m).
Proof.
  induction branches as [|branch rest IH]; [reflexivity |].
  cbn [firstVerified List.filter]. unfold bind. rewrite tryVerify_run.
  destruct (verifies branch workspacePath m); [reflexivity | exact IH].
Qed.

Lemma readOriginHead_result workspacePath (m : Machine) :
  (exists name, readOriginHead workspacePath m = (Some (Some name), m) /\ truthy name = true)
  \/ readOriginHead workspacePath m = (Some None, m)
  \/ readOriginHead workspacePath m = (None, m).
Proof.
  unfold readOriginHead, bind, ret.
  rewrite execSync_query by reflexivity.
  destruct (git_query _ _ _) as [out |]; [| now right; right].
  destruct (match_origin (trim out)) as [name |]; [| now right; left].
  destruct (truthy name) eqn:E; [left; now exists name | now right; left].
Qed.

(** [getDefaultBranchFromRemote] never throws, and a branch it returns
    has a non-empty name. *)
Lemma getDefaultBranchFromRemote_total workspacePath (m : Machine) :
  exists d m1,
    getDefaultBranchFromRemote workspacePath m = (Some d, m1) /\
    (forall name, d = Some name -> truthy name = true).
Proof.
  unfold getDefaultBranchFromRemote, try_catch at 1.
  destruct (readOriginHead_result workspacePath m) as [(name & -> & Hn) | [-> | ->]].
  - exists (Some name), m. split; [reflexivity | now intros ? [= <-]].
  - exists None, m. split; [reflexivity | discriminate].
  - unfold try_catch, bind, ret.
    destruct (execSync "git remote set-head origin --auto" workspacePath m) as [[out |] m1].
    + destruct (readOriginHead_result workspacePath m1) as [(name & -> & Hn) | [-> | ->]].
      * exists (Some name), m1. split; [reflexivity | now intros ? [= <-]].
      * exists None, m1. split; [reflexivity | discriminate].
      * exists None, m1. split; [reflexivity | discriminate].
    + exists None, m1. split; [reflexivity | discriminate].
Qed.

(** C5.  [getBaseBranch] returns the remote default branch when it is
    determined and verifies locally, whether or not [main] verifies too;
    otherwise the first of [main], [develop], [master] that verifies
    locally, and [main] when none does. *)
Theorem getBaseBranch_result workspacePath (m : Machine) :
  exists d m1,
    getDefaultBranchFromRemote workspacePath m = (Some d, m1) /\
    getBaseBranch workspacePath m
    = (Some match d with
            | Some name =>
                if verifies name workspacePath m1 then name
                else first_common_branch workspacePath m1
            | None => first_common_branch workspacePath m1
            end, m1).
Proof.
  destruct (getDefaultBranchFromRemote_total workspacePath m) as (d & m1 & Hd & Hname).
  exists d, m1. split; [exact Hd |].
  unfold getBaseBranch, bind at 1. rewrite Hd.
  assert (Hfallback :
    (found <- firstVerified commonBranches workspacePath ;;
     match found with Some b => ret b | None => ret "main" end) m1
    = (Some (first_common_branch workspacePath m1), m1)).
  { unfold bind. rewrite firstVerified_run. unfold first_common_branch, commonBranches.
    now destruct (List.filter _ _). }
  destruct d as [name |].
  - rewrite (Hname name eq_refl). unfold bind at 1. rewrite tryVerify_run.
    destruct (verifies name workspacePath m1); [reflexivity | exact Hfallback].
  - unfold bind at 1, ret at 1. exact Hfallback.
Qed.

End WithHost.

(** The tie-break of the specification: the remote default is [canary],
    [canary] and [main] both verify locally, and the base branch is
    [canary]. *)
Example getBaseBranch_canary :
  fst (@getBaseBranch (scripted_host canary_repo) "/ws" (boot canary_repo)) = Some "canary".
Proof. vm_compute. reflexivity. Qed.

(** After [git remote set-head origin --auto] the remote default is known. *)
Example getBaseBranch_after_set_head :
  fst (@getBaseBranch (scripted_host unset_head_repo) "/ws" (boot unset_head_repo))
  = Some "develop".
Proof. vm_compute. reflexivity. Qed.

Example getBaseBranch_plain :
  fst (@getBaseBranch (scripted_host plain_repo) "/ws" (boot plain_repo)) = Some "main".
Proof. vm_compute. reflexivity. Qed.

End GitFacts.

(** ** Search *)

Section SearchFacts.
Import JS Eff Git Indexer Props.

(** C2 (as amended).  When the current branch resolves, [search] sends
    exactly one request: [preferBranch] is the current branch,
    [fallbackBranch] is the constant ["main"], and [excludeFiles] is empty
    when the current branch is named exactly [main], [master] or [develop],
    and otherwise the files deleted in the diff against ["main"], or empty
    when that diff fails. *)
Theorem search_request `{Host} (query : string) (config : ManagedIndexingConfig)
    (path : option string) (m : Machine) (gitBranch : string) :
  fst (getCurrentBranch (workspacePath config) m) = Some gitBranch ->
  exists answer m',
    search query config path m = (answer, m') /\
    outbox m' = outbox m ++
      [({| query := query;
           req_organizationId := organizationId config;
           req_projectId := projectId config;
           preferBranch := gitBranch;
           fallbackBranch := "main";
           excludeFiles :=
             if String.eqb gitBranch "main" || String.eqb gitBranch "master"
                || String.eqb gitBranch "develop"
             then []
             else match fst (getGitDiff gitBranch "main" (workspacePath config) m) with
                  | Some diff => deleted diff
                  | None => []
                  end;
           path := path |},
        kilocodeToken config)].
Proof.
  intros Hbranch.
  rewrite getCurrentBranch_run in Hbranch. cbn [fst] in Hbranch.
  unfold search, try_catch at 1, bind at 1.
  rewrite getCurrentBranch_run, Hbranch.
  set (exclude := if String.eqb gitBranch "main" || _ || _ then [] else _).
  assert (Hexclude :
    (if negb (String.eqb gitBranch "main") && negb (String.eqb gitBranch "master")
        && negb (String.eqb gitBranch "develop")
     then try_catch
            (diff <- getGitDiff gitBranch "main" (workspacePath config) ;; ret (deleted diff))
            (ret [])
     else ret []) m = (Some exclude, m)).
  { subst exclude.
    destruct (String.eqb gitBranch "main"), (String.eqb gitBranch "master"),
      (String.eqb gitBranch "develop"); cbn [negb andb orb]; try reflexivity.
    unfold try_catch, bind, ret.
    pose proof (getGitDiff_pure gitBranch "main" (workspacePath config) m) as Hpure.
    destruct (getGitDiff gitBranch "main" (workspacePath config) m) as [[diff |] m1];
      cbn [snd fst] in *; subst m1; reflexivity. }
  unfold bind at 1. rewrite Hexclude.
  unfold bind, apiSearchCode, ret, throw.
  destruct (remote_search _ _ _) as [[results |] w]; eexists; eexists; split; reflexivity.
Qed.

End SearchFacts.

Section SearchExamples.
Import JS Eff Git Indexer Props.

Lemma search_request_witness :
  fst (@getCurrentBranch (scripted_host canary_repo) (workspacePath example_config)
         (boot canary_repo)) = Some "feature/x" /\
  exists answer m',
    @search (scripted_host canary_repo) "needle" example_config None (boot canary_repo)
    = (answer, m') /\
    outbox m' = outbox (boot canary_repo) ++
      [({| query := "needle";
           req_organizationId := organizationId example_config;
           req_projectId := projectId example_config;
           preferBranch := "feature/x";
           fallbackBranch := "main";
           excludeFiles :=
             if String.eqb "feature/x" "main" || String.eqb "feature/x" "master"
                || String.eqb "feature/x" "develop"
             then []
             else match fst (@getGitDiff (scripted_host canary_repo) "feature/x" "main"
                               (workspacePath example_config) (boot canary_repo)) with
                  | Some diff => deleted diff
                  | None => []
                  end;
           path := None |},
        kilocodeToken example_config)].
Proof.
  refine ((fun Hb => conj Hb
             (@search_request (scripted_host canary_repo) "needle" example_config None
                (boot canary_repo) "feature/x" Hb)) _).
  vm_compute. reflexivity.
Defined.

(** The request sent from the [canary] checkout. *)
Example search_canary_request :
  map fst (outbox (snd (@search (scripted_host canary_repo) "needle" example_config None
                          (boot canary_repo))))
  = [{| query := "needle";
        req_organizationId := "org";
        req_projectId := "proj";
        preferBranch := "feature/x";
        fallbackBranch := "main";
        excludeFiles := ["u.ts"];
        path := None |}].
Proof. vm_compute. reflexivity. Qed.

(** C2 as stated fails: in a checkout whose base branch resolves to
    [canary], the request still names [main] as the fallback branch. *)
Lemma search_fallback_counterexample :
  ~ (forall request token baseBranch,
       In (request, token)
          (outbox (snd (@search (scripted_host canary_repo) "needle" example_config None
                          (boot canary_repo)))) ->
       fst (@getBaseBranch (scripted_host canary_repo) (workspacePath example_config)
              (boot canary_repo)) = Some baseBranch ->
       fallbackBranch request = baseBranch).
Proof.
  intros Hall.
  remember (outbox (snd (@search (scripted_host canary_repo) "needle" example_config None
                           (boot canary_repo)))) as sent eqn:E.
  vm_compute in E. subst sent.
  specialize (Hall _ _ "canary" (or_introl eq_refl)).
  assert (Hbase : fst (@getBaseBranch (scripted_host canary_repo) (workspacePath example_config)
                         (boot canary_repo)) = Some "canary") by (vm_compute; reflexivity).
  specialize (Hall Hbase). discriminate Hall.
Qed.

End SearchExamples.

(** ** The client cache *)

Section CacheFacts.
Import JS Eff Git Cache Props.

Lemma addDeletedFile_present cache filePath :
  In filePath (deletedFiles cache) -> addDeletedFile cache filePath = cache.
Proof.
  intros Hin. unfold addDeletedFile.
  rewrite bool_decide_eq_true_2; [reflexivity | now apply list_elem_of_In].
Qed.

Lemma addDeletedFile_In cache filePath : In filePath (deletedFiles (addDeletedFile cache filePath)).
Proof.
  unfold addDeletedFile. case_bool_decide as Hin.
  - now apply list_elem_of_In.
  - simpl. apply in_or_app. right. now left.
Qed.

Lemma addDeletedFile_NoDup cache filePath :
  NoDup (deletedFiles cache) -> NoDup (deletedFiles (addDeletedFile cache filePath)).
Proof.
  intros Hnd. unfold addDeletedFile. case_bool_decide as Hin; [exact Hnd |].
  simpl. apply NoDup_app. repeat split.
  - exact Hnd.
  - intros x Hx Hx'. apply list_elem_of_singleton in Hx'. now subst.
  - apply NoDup_singleton.
Qed.

Lemma removeDeletedFile_NoDup cache filePath :
  NoDup (deletedFiles cache) -> NoDup (deletedFiles (removeDeletedFile cache filePath)).
Proof.
  intros Hnd. simpl. apply NoDup_ListNoDup, List.NoDup_filter. now apply NoDup_ListNoDup.
Qed.

Lemma apply_ops_NoDup ops cache :
  NoDup (deletedFiles cache) -> NoDup (deletedFiles (apply_ops cache ops)).
Proof.
  revert cache. induction ops as [|op ops IH]; intros cache Hnd; [exact Hnd |].
  apply IH. destruct op; [now apply addDeletedFile_NoDup | now apply removeDeletedFile_NoDup].
Qed.

Lemma table_get_set_eq {A} (key : string) (value : A) (table : Table A) :
  table_get (table_set key value table) key = Some value.
Proof.
  unfold table_get, table_set.
  destruct (own table !! key) eqn:Eown; cbn [own proto].
  - now rewrite lookup_insert_eq.
  - destruct (String.eqb key proto_key) eqn:Ekey; cbn [own proto].
    + now rewrite Eown.
    + now rewrite lookup_insert_eq.
Qed.

Lemma table_get_set_ne {A} (key other : string) (value : A) (table : Table A) :
  other <> key ->
  table_get (table_set key value table) other = table_get table other.
Proof.
  intros Hne. unfold table_get, table_set.
  destruct (own table !! key) eqn:Eown; cbn [own proto].
  - now rewrite lookup_insert_ne by congruence.
  - destruct (String.eqb_spec key proto_key) as [-> | Hkey]; cbn [own proto].
    + destruct (own table !! other); [reflexivity |].
      destruct (String.eqb_spec other proto_key); [contradiction | reflexivity].
    + now rewrite lookup_insert_ne by congruence.
Qed.

Lemma table_get_rest_eq {A} (key : string) (table : Table A) :
  table_get (table_rest key table) key = None.
Proof.
  unfold table_get, table_rest. cbn [own proto].
  rewrite lookup_delete_eq. now destruct (String.eqb key proto_key).
Qed.

Lemma table_get_rest_ne {A} (key other : string) (table : Table A) :
  other <> key -> other <> proto_key ->
  table_get (table_rest key table) other = table_get table other.
Proof.
  intros Hne Hproto. unfold table_get, table_rest. cbn [own proto].
  rewrite lookup_delete_ne by congruence.
  destruct (own table !! other); [reflexivity |].
  destruct (String.eqb_spec other proto_key); [contradiction | reflexivity].
Qed.

Lemma table_get_empty {A} (key : string) : table_get (∅ : Table A) key = None.
Proof.
  unfold table_get. cbn [own proto empty table_empty].
  rewrite lookup_empty. now destruct (String.eqb key proto_key).
Qed.

Section WithHost.
Context `{Host} `{Hashing}.

(** C10.  Adding a path that is already listed returns the cache as it is;
    adding twice is adding once; and no history of additions and removals
    that starts from an empty cache lists a path twice. *)
Theorem addDeletedFile_no_duplicates (cache : ClientCache) (filePath gitBranch : string)
    (m : Machine) (ops : list DeletedOp) :
  (In filePath (deletedFiles cache) -> addDeletedFile cache filePath = cache) /\
  addDeletedFile (addDeletedFile cache filePath) filePath = addDeletedFile cache filePath /\
  exists empty m',
    createEmptyCache gitBranch m = (Some empty, m') /\
    List.NoDup (deletedFiles (apply_ops empty ops)).
Proof.
  split; [apply addDeletedFile_present |].
  split; [apply addDeletedFile_present, addDeletedFile_In |].
  eexists. eexists. split; [reflexivity |].
  apply NoDup_ListNoDup, apply_ops_NoDup. simpl. apply NoDup_nil_2.
Qed.

(** What [updateCacheEntry] does to the table its argument points to. *)
Lemma updateCacheEntry_writes_through (cache : ClientCache) (filePath fileHash : string)
    (count : Z) (m : Machine) (table : Table FileEntry) :
  heap m !! files cache = Some table ->
  exists m',
    updateCacheEntry cache filePath fileHash count m = (Some cache, m') /\
    world m' = world m /\
    heap m' !! files cache
    = Some (table_set filePath {| hash := fileHash; lastIndexed := Date_now (world m);
                                  chunkCount := count |} table).
Proof.
  intros Htable. eexists. split; [reflexivity |]. split; [reflexivity |].
  unfold set_heap. cbn [heap]. rewrite lookup_alter_eq, Htable. reflexivity.
Qed.

(** [removeCacheEntry], its sibling, leaves the argument's table alone. *)
Lemma removeCacheEntry_preserves_argument (cache : ClientCache) (filePath : string)
    (m : Machine) :
  is_Some (heap m !! files cache) ->
  exists cache' m',
    removeCacheEntry cache filePath m = (Some cache', m') /\
    contents m' cache = contents m cache.
Proof.
  intros Hsome. eexists. eexists. split; [reflexivity |].
  unfold contents, set_heap. cbn [heap]. f_equal.
  apply lookup_insert_ne. intros Heq.
  apply (is_fresh (dom (heap m))). rewrite Heq. now apply elem_of_dom.
Qed.

(** C8.  When the current branch resolves and the cache file is absent,
    or its text does not parse, or the parsed value lacks [gitBranch] or
    [files], [loadClientCache] resolves to a new empty cache for the current
    branch. *)
Theorem loadClientCache_failure (context : ExtensionContext) (workspacePath : string)
    (m : Machine) (branch : string) :
  fst (getCurrentBranch workspacePath m) = Some branch ->
  (fs_readFile (getCachePath context workspacePath branch) (world m) = None \/
   exists text,
     fs_readFile (getCachePath context workspacePath branch) (world m) = Some text /\
     (JSON_parse text = None \/
      exists value,
        JSON_parse text = Some value /\
        (lacks_field value "gitBranch" \/ lacks_field value "files"))) ->
  exists cache m',
    loadClientCache context workspacePath m = (Some (Created cache), m') /\
    gitBranch cache = branch /\
    deletedFiles cache = [] /\
    heap m' !! files cache = Some ∅.
Proof.
  intros Hbranch Hfail.
  rewrite getCurrentBranch_run in Hbranch. cbn [fst] in Hbranch.
  assert (Hcatch :
    (gitBranch <- getCurrentBranch workspacePath ;;
     cache <- createEmptyCache gitBranch ;; ret (Created cache)) m
    = (Some (Created {| gitBranch := branch; deletedFiles := [];
                         files := fresh (dom (heap m)) |}),
       set_heap (<[fresh (dom (heap m)) := ∅]> (heap m)) m)).
  { unfold bind at 1. rewrite getCurrentBranch_run, Hbranch. reflexivity. }
  exists {| gitBranch := branch; deletedFiles := []; files := fresh (dom (heap m)) |}.
  exists (set_heap (<[fresh (dom (heap m)) := ∅]> (heap m)) m).
  split; [| repeat split; unfold set_heap; cbn [heap files]; apply lookup_insert_eq].
  unfold loadClientCache, try_catch.
  unfold bind at 1. rewrite getCurrentBranch_run, Hbranch. cbn [fmap option_fmap option_map].
  unfold bind at 1, readFile.
  destruct Hfail as [-> | (text & -> & Hfail)]; [exact Hcatch |].
  unfold bind at 1, lift_option.
  destruct Hfail as [-> | (value & -> & Hfail)]; [exact Hcatch |].
  unfold bind at 1.
  destruct value as [| b | mantissa exponent | s | items | properties];
    cbn [get_property json_truthy negb]; try exact Hcatch.
  destruct (json_truthy (own_property properties "gitBranch")) eqn:Ebranch;
    cbn [negb]; [| exact Hcatch].
  unfold bind at 1.
  destruct Hfail as [Hlacks | Hlacks]; cbn [lacks_field] in Hlacks.
  - rewrite Hlacks in Ebranch. discriminate Ebranch.
  - rewrite Hlacks. cbn [json_truthy negb]. exact Hcatch.
Qed.

(** When the current branch cannot be read, the [catch] block throws in
    its turn and the promise rejects. *)
Lemma loadClientCache_rejects_without_branch (context : ExtensionContext)
    (workspacePath : string) (m : Machine) :
  fst (getCurrentBranch workspacePath m) = None ->
  fst (loadClientCache context workspacePath m) = None.
Proof.
  intros Hbranch. rewrite getCurrentBranch_run in Hbranch. cbn [fst] in Hbranch.
  unfold loadClientCache, try_catch.
  unfold bind at 1. rewrite getCurrentBranch_run, Hbranch.
  unfold bind at 1. rewrite getCurrentBranch_run, Hbranch. reflexivity.
Qed.

End WithHost.
End CacheFacts.

Section CacheExamples.
Import JS Eff Git Cache Props.

(** C7 on an input: the cache [createEmptyCache("main")] returns has an
    empty table; after [updateCacheEntry(cache, "a.ts", "h1", 3)] the same
    cache, read again, has the entry for [a.ts]: the function wrote into
    its argument, which its documentation says it does not do. *)
Lemma updateCacheEntry_mutates_argument :
  exists cache m1 m2,
    @createEmptyCache (scripted_host plain_repo) "main" (boot plain_repo) = (Some cache, m1) /\
    @updateCacheEntry (scripted_host plain_repo) cache "a.ts" "h1" 3 m1 = (Some cache, m2) /\
    contents m1 cache = ("main", [], Some ∅) /\
    contents m2 cache
    = ("main", [],
       Some {[ "a.ts" := {| hash := "h1"; lastIndexed := 1700000000000; chunkCount := 3 |} ]}) /\
    contents m2 cache <> contents m1 cache.
Proof.
  eexists. eexists. eexists.
  split; [reflexivity |]. split; [reflexivity |].
  assert (H1 : forall l : loc, (<[l := (∅ : Table FileEntry)]> (∅ : gmap loc _)) !! l = Some ∅)
    by (intros; apply lookup_insert_eq).
  unfold contents, updateCacheEntry, createEmptyCache, set_heap, boot.
  cbn [heap files gitBranch deletedFiles world].
  rewrite lookup_alter_eq, H1. cbn [fmap option_fmap option_map].
  split; [reflexivity |]. split; [reflexivity |].
  intros Heq.
  apply (f_equal (fun c : string * list string * option (Table FileEntry) =>
                    match c.2 with Some t => table_get t "a.ts" | None => None end)) in Heq.
  cbn [snd] in Heq. discriminate Heq.
Qed.

Lemma loadClientCache_failure_witness :
  fst (@getCurrentBranch (scripted_host plain_repo) "/ws" (boot plain_repo)) = Some "main" /\
  (@fs_readFile (scripted_host plain_repo)
     (@getCachePath (scripted_host plain_repo) tagging_hashes example_context "/ws" "main")
     (world (boot plain_repo)) = None \/
   exists text,
     @fs_readFile (scripted_host plain_repo)
       (@getCachePath (scripted_host plain_repo) tagging_hashes example_context "/ws" "main")
       (world (boot plain_repo)) = Some text /\
     (@JSON_parse (scripted_host plain_repo) text = None \/
      exists value,
        @JSON_parse (scripted_host plain_repo) text = Some value /\
        (lacks_field value "gitBranch" \/ lacks_field value "files"))) /\
  exists cache m',
    @loadClientCache (scripted_host plain_repo) tagging_hashes example_context "/ws"
      (boot plain_repo) = (Some (Created cache), m') /\
    gitBranch cache = "main" /\
    deletedFiles cache = [] /\
    heap m' !! files cache = Some ∅.
Proof.
  refine ((fun Hb Hf => conj Hb (conj Hf
             (@loadClientCache_failure (scripted_host plain_repo) tagging_hashes
                example_context "/ws" (boot plain_repo) "main" Hb Hf))) _ _).
  - vm_compute. reflexivity.
  - left. vm_compute. reflexivity.
Defined.

Example loadClientCache_lacking_files :
  exists cache m',
    @loadClientCache (scripted_host stale_cache_repo) tagging_hashes example_context "/ws"
      (boot stale_cache_repo) = (Some (Created cache), m') /\
    gitBranch cache = "main" /\ deletedFiles cache = [].
Proof. eexists. eexists. split; [reflexivity | split; reflexivity]. Qed.

Example loadClientCache_from_disk :
  fst (@loadClientCache (scripted_host cached_repo) tagging_hashes example_context "/ws"
         (boot cached_repo))
  = Some (Parsed (JObject [("gitBranch", JString "main"); ("deletedFiles", JArray []);
                           ("files", JObject [])])).
Proof. reflexivity. Qed.

Lemma addDeletedFile_no_duplicates_witness :
  In "a.ts" (deletedFiles {| gitBranch := "main"; deletedFiles := ["a.ts"]; files := 1%positive |}) /\
  addDeletedFile {| gitBranch := "main"; deletedFiles := ["a.ts"]; files := 1%positive |} "a.ts"
  = {| gitBranch := "main"; deletedFiles := ["a.ts"]; files := 1%positive |} /\
  exists empty m',
    @createEmptyCache (scripted_host plain_repo) "main" (boot plain_repo) = (Some empty, m') /\
    List.NoDup (deletedFiles
                  (apply_ops empty
                     [MarkDeleted "a.ts"; MarkDeleted "b.ts"; MarkDeleted "a.ts";
                      UnmarkDeleted "b.ts"])).
Proof.
  refine ((fun Hin =>
             let T := @addDeletedFile_no_duplicates (scripted_host plain_repo)
                        {| gitBranch := "main"; deletedFiles := ["a.ts"]; files := 1%positive |}
                        "a.ts" "main" (boot plain_repo)
                        [MarkDeleted "a.ts"; MarkDeleted "b.ts"; MarkDeleted "a.ts";
                         UnmarkDeleted "b.ts"] in
             conj Hin (conj (proj1 T Hin) (proj2 (proj2 T)))) _).
  simpl. left. reflexivity.
Defined.

Example apply_ops_example :
  deletedFiles
    (apply_ops {| gitBranch := "main"; deletedFiles := []; files := 1%positive |}
       [MarkDeleted "a.ts"; MarkDeleted "b.ts"; MarkDeleted "a.ts"; UnmarkDeleted "b.ts"])
  = ["a.ts"].
Proof. vm_compute. reflexivity. Qed.

End CacheExamples.

(** ** The watcher *)

Section WatcherFacts.
Import JS Eff Cache Indexer Watcher Props.

Lemma split_after_prefix {A} (P : A -> Prop) (front : list A) :
  forall (X Y R : list A) (c : A),
    X ++ c :: Y = front ++ R ->
    Forall P front -> ~ P c ->
    exists k, X = front ++ k /\ R = k ++ c :: Y.
Proof.
  induction front as [|d front IH]; intros X Y R c Heq Hfront Hc.
  - exists X. split; [reflexivity | now symmetry].
  - inversion Hfront as [|? ? Hd Hrest]; subst.
    destruct X as [|x X]; simpl in Heq.
    + injection Heq as -> _. contradiction.
    + injection Heq as -> Heq.
      destruct (IH X Y R c Heq Hrest Hc) as (k & -> & ->).
      now exists k.
Qed.

Lemma is_type_spec t e : is_type t e = true <-> type e = t.
Proof. unfold is_type. destruct t, (type e); split; intros; congruence. Qed.

Section WithHost.
Context `{Host} `{Hashing} `{!Scanner}.
Variable config : ManagedIndexingConfig.
Variable context : ExtensionContext.
Variable onFilesChanged : option (list FileChangeEvent -> M unit).

Lemma run_calls_app (first second : list Call) (state : LoadedCache * Machine) :
  run_calls config context onFilesChanged (first ++ second) state
  = run_calls config context onFilesChanged second
      (run_calls config context onFilesChanged first state).
Proof. unfold run_calls. apply fold_left_app. Qed.

(** A handler under [try]/[catch]: the call is made, the handler runs. *)
Lemma attempt_invoke (call : Call) (handler : LoadedCache -> M LoadedCache)
    (cache : LoadedCache) (r : Run) :
  attempt (invoke call (handler cache)) cache r
  = (fst (handled handler (cache, machine r)),
     {| machine := snd (handled handler (cache, machine r));
        calls := calls r ++ [call] |}).
Proof.
  unfold attempt, invoke, handled. cbn [fst snd].
  destruct (handler cache (machine r)) as [[cache' |] m']; reflexivity.
Qed.

Lemma processDeleted_run events cache (r : Run) :
  processDeleted config context events cache r
  = (fst (run_calls config context onFilesChanged (map CallHandleFileDeleted events)
            (cache, machine r)),
     {| machine := snd (run_calls config context onFilesChanged
                          (map CallHandleFileDeleted events) (cache, machine r));
        calls := calls r ++ map CallHandleFileDeleted events |}).
Proof.
  revert cache r. induction events as [|event rest IH]; intros cache r.
  - cbn [processDeleted map run_calls fold_left fst snd]. rewrite app_nil_r. now destruct r.
  - cbn [processDeleted].
    rewrite (attempt_invoke _ (handleFileDeleted (filePath event) config context)).
    rewrite IH. cbn [machine calls map].
    rewrite <- app_assoc. cbn [app].
    unfold run_calls. cbn [fold_left run_call].
    now rewrite <- surjective_pairing.
Qed.

Lemma processToIndex_run events cache (r : Run) :
  processToIndex config context events cache r
  = (fst (run_calls config context onFilesChanged (map CallIndexFile events)
            (cache, machine r)),
     {| machine := snd (run_calls config context onFilesChanged
                          (map CallIndexFile events) (cache, machine r));
        calls := calls r ++ map CallIndexFile events |}).
Proof.
  revert cache r. induction events as [|event rest IH]; intros cache r.
  - cbn [processToIndex map run_calls fold_left fst snd]. rewrite app_nil_r. now destruct r.
  - cbn [processToIndex].
    rewrite (attempt_invoke _ (indexFile (filePath event) config context)).
    rewrite IH. cbn [machine calls map].
    rewrite <- app_assoc. cbn [app].
    unfold run_calls. cbn [fold_left run_call].
    now rewrite <- surjective_pairing.
Qed.

(** A batch is handled when it is not empty and the cache loads; the run it
    leaves is the one reached by running its calls in order. *)
Lemma processChangeQueue_run events (m : Machine) (cache0 : LoadedCache) (m0 : Machine) :
  events <> [] ->
  loadClientCache context (workspacePath config) m = (Some cache0, m0) ->
  processChangeQueue config context events onFilesChanged (start m)
  = {| machine := snd (run_calls config context onFilesChanged (calls_of_batch onFilesChanged events)
                         (cache0, m0));
       calls := calls_of_batch onFilesChanged events |}.
Proof.
  intros Hne Hload. unfold processChangeQueue, calls_of_batch.
  replace (arr_length events =? 0) with false
    by (destruct events; [congruence | reflexivity]).
  unfold lift, start. cbn [machine calls]. rewrite Hload.
  rewrite processDeleted_run, processToIndex_run. cbn [machine calls app].
  rewrite <- surjective_pairing, <- run_calls_app.
  destruct onFilesChanged as [callback |] eqn:Ecallback.
  - unfold invoke. cbn [machine calls].
    destruct (callback events _) as [result m4] eqn:Ecall. cbn [snd].
    rewrite <- app_assoc. f_equal.
    rewrite (app_assoc (map CallHandleFileDeleted _)).
    unfold run_calls in *. rewrite fold_left_app. cbn [fold_left run_call snd].
    now rewrite Ecall.
  - now rewrite app_nil_r.
Qed.

(** Otherwise no call is made. *)
Lemma processChangeQueue_skipped events (r : Run) :
  events = [] \/ fst (loadClientCache context (workspacePath config) (machine r)) = None ->
  calls (processChangeQueue config context events onFilesChanged r) = calls r.
Proof.
  intros Hskip. unfold processChangeQueue.
  destruct (arr_length events =? 0) eqn:Elen; [reflexivity |].
  destruct Hskip as [-> | Hload]; [discriminate Elen |].
  unfold lift.
  destruct (loadClientCache context (workspacePath config) (machine r)) as [[cache |] m1];
    [discriminate Hload | reflexivity].
Qed.

(** C9.  Whenever the batch handler calls the index handler for an event
    (which is then of type created or changed), the deletion handler has
    already been called for every event of type deleted in the batch, and
    is not called again afterwards; and the calls are the execution: the
    machine the batch leaves is the one reached by running, from the cache
    that was loaded, the handlers called before, then the index handler for
    the event, then what is called after. *)
Theorem processChangeQueue_deletes_first events (m : Machine)
    (before : list Call) (event : FileChangeEvent) (after : list Call) :
  calls (processChangeQueue config context events onFilesChanged (start m))
  = before ++ CallIndexFile event :: after ->
  (type event = created \/ type event = changed) /\
  (forall d, In d events -> type d = deleted -> In (CallHandleFileDeleted d) before) /\
  (forall d, ~ In (CallHandleFileDeleted d) after) /\
  exists cache0 m0,
    loadClientCache context (workspacePath config) m = (Some cache0, m0) /\
    machine (processChangeQueue config context events onFilesChanged (start m))
    = snd (run_calls config context onFilesChanged (CallIndexFile event :: after)
             (run_calls config context onFilesChanged before (cache0, m0))).
Proof.
  intros Hcalls.
  destruct events as [|first others] eqn:Eevents.
  { rewrite processChangeQueue_skipped in Hcalls by now left. now destruct before. }
  rewrite <- Eevents in *.
  destruct (loadClientCache context (workspacePath config) m) as [[cache0 |] m0] eqn:Hload.
  2: { rewrite processChangeQueue_skipped in Hcalls
         by (right; cbn [start machine]; now rewrite Hload).
       now destruct before. }
  assert (Hne : events <> []) by (rewrite Eevents; discriminate).
  rewrite (processChangeQueue_run events m cache0 m0 Hne Hload) in *.
  cbn [calls machine] in *. clear Eevents Hne Hload first others.
  assert (Hsplit := Hcalls). unfold calls_of_batch in Hsplit. symmetry in Hsplit.
  apply (split_after_prefix (fun c => exists d, c = CallHandleFileDeleted d)) in Hsplit.
  2: { apply Forall_forall. intros c Hc. apply list_elem_of_In, in_map_iff in Hc.
       destruct Hc as (d & <- & _). now exists d. }
  2: { intros [d Hd]. discriminate Hd. }
  destruct Hsplit as (k & -> & Hrest).
  assert (Hafter : forall c, In c (CallIndexFile event :: after) ->
            (exists e, c = CallIndexFile e /\
               In e (List.filter (is_type created) events
                     ++ List.filter (is_type changed) events))
            \/ c = CallOnFilesChanged events).
  { intros c Hc.
    assert (Hin : In c (map CallIndexFile
                          (List.filter (is_type created) events
                           ++ List.filter (is_type changed) events)
                        ++ match onFilesChanged with
                           | Some _ => [CallOnFilesChanged events]
                           | None => []
                           end)).
    { rewrite Hrest. apply in_or_app. now right. }
    apply in_app_or in Hin as [Hin | Hin].
    - apply in_map_iff in Hin as (e & <- & He). left. now exists e.
    - right. destruct onFilesChanged; [| destruct Hin].
      destruct Hin as [<- | []]. reflexivity. }
  split; [| split; [| split]].
  - destruct (Hafter _ (or_introl eq_refl)) as [(e & [= <-] & He) | Hbad]; [| discriminate].
    apply in_app_or in He as [He | He]; apply filter_In in He as [_ He];
      apply is_type_spec in He; [now left | now right].
  - intros d Hd Htype. apply in_or_app. left.
    apply in_map, filter_In. split; [exact Hd | now apply is_type_spec].
  - intros d Hd.
    destruct (Hafter _ (or_intror Hd)) as [(e & Habs & _) | Habs]; discriminate Habs.
  - exists cache0, m0. split; [reflexivity |].
    now rewrite Hcalls, run_calls_app.
Qed.

End WithHost.

Lemma processChangeQueue_deletes_first_witness :
  calls (@processChangeQueue (scripted_host plain_repo) tagging_hashes
           (flaky_scanner plain_repo) example_config example_context example_events None
           (start (boot plain_repo)))
  = [CallHandleFileDeleted
       {| type := deleted; filePath := "/ws/b.ts"; timestamp := 2 |}]
    ++ CallIndexFile {| type := created; filePath := "/ws/c.ts"; timestamp := 3 |}
    :: [CallIndexFile {| type := changed; filePath := "/ws/a.ts"; timestamp := 1 |}] /\
  ((type {| type := created; filePath := "/ws/c.ts"; timestamp := 3 |} = created \/
    type {| type := created; filePath := "/ws/c.ts"; timestamp := 3 |} = changed) /\
   (forall d, In d example_events -> type d = deleted ->
      In (CallHandleFileDeleted d)
         [CallHandleFileDeleted {| type := deleted; filePath := "/ws/b.ts"; timestamp := 2 |}]) /\
   (forall d, ~ In (CallHandleFileDeleted d)
                 [CallIndexFile {| type := changed; filePath := "/ws/a.ts"; timestamp := 1 |}]) /\
   exists cache0 m0,
     @loadClientCache (scripted_host plain_repo) tagging_hashes example_context
       (workspacePath example_config) (boot plain_repo) = (Some cache0, m0) /\
     machine (@processChangeQueue (scripted_host plain_repo) tagging_hashes
                (flaky_scanner plain_repo) example_config example_context example_events None
                (start (boot plain_repo)))
     = snd (@run_calls (scripted_host plain_repo) (flaky_scanner plain_repo) example_config
              example_context None
              (CallIndexFile {| type := created; filePath := "/ws/c.ts"; timestamp := 3 |}
               :: [CallIndexFile {| type := changed; filePath := "/ws/a.ts"; timestamp := 1 |}])
              (@run_calls (scripted_host plain_repo) (flaky_scanner plain_repo) example_config
                 example_context None
                 [CallHandleFileDeleted
                    {| type := deleted; filePath := "/ws/b.ts"; timestamp := 2 |}]
                 (cache0, m0)))).
Proof.
  refine ((fun Hcalls => conj Hcalls
             (@processChangeQueue_deletes_first (scripted_host plain_repo) tagging_hashes
                (flaky_scanner plain_repo) example_config example_context None example_events
                (boot plain_repo) _ _ _ Hcalls)) _).
  vm_compute. reflexivity.
Defined.

End WatcherFacts.

(* ===================================================================== *)
(** * Part III: further properties of the code                            *)
(* ===================================================================== *)

(** ** More on strings *)

Section JSMore.
Import JS Chunker Props Notions.

Lemma join_cons_char sep c piece pieces :
  join sep (String c piece :: pieces) = String c (join sep (piece :: pieces)).
Proof. destruct pieces; reflexivity. Qed.

(** Joining what [split] cut gives the string back. *)
Lemma join_split sep s : join (String sep EmptyString) (split sep s) = s.
Proof.
  induction s as [|c s IH]; [reflexivity |].
  cbn [split]. destruct (Ascii.eqb_spec c sep) as [-> | Hne].
  - pose proof (split_not_nil sep s) as Hnil.
    destruct (split sep s) as [|piece pieces]; [congruence |].
    change (join (String sep EmptyString) (EmptyString :: piece :: pieces))
      with (String sep (join (String sep EmptyString) (piece :: pieces))).
    now rewrite IH.
  - pose proof (split_not_nil sep s) as Hnil.
    destruct (split sep s) as [|piece pieces]; [congruence |].
    now rewrite join_cons_char, IH.
Qed.

(** The loop's count of a whole file is its length plus one. *)
Lemma chars_of_split s : chars_of (split LF s) = str_length s + 1.
Proof.
  induction s as [|c s IH]; [reflexivity |].
  cbn [split]. destruct (Ascii.eqb c LF).
  - rewrite chars_of_cons, IH. unfold str_length. cbn [String.length]. lia.
  - pose proof (split_not_nil LF s) as Hnil.
    destruct (split LF s) as [|piece pieces]; [congruence |].
    rewrite chars_of_cons in *. unfold str_length in *. cbn [String.length]. lia.
Qed.

Lemma chars_of_take_le (n : nat) (lines : list string) :
  chars_of (take n lines) <= chars_of lines.
Proof.
  rewrite <- (take_drop n lines) at 2. rewrite chars_of_app.
  pose proof (chars_of_nonneg (drop n lines)). lia.
Qed.

Lemma chars_of_suffix_le (seg whole : list string) :
  seg `suffix_of` whole -> chars_of seg <= chars_of whole.
Proof.
  intros [front ->]. rewrite chars_of_app.
  pose proof (chars_of_nonneg front). lia.
Qed.

Lemma chained_snoc {A} (R : A -> A -> Prop) (l : list A) (a : A) :
  chained R l ->
  match last l with Some x => R x a | None => True end ->
  chained R (l ++ [a]).
Proof.
  induction l as [|x l IH]; simpl; intros Hl Ha; [exact I |].
  destruct l as [|y l]; simpl in *.
  - split; [exact Ha | exact I].
  - destruct Hl as [Hxy Hl]. split; [exact Hxy |]. now apply IH.
Qed.

Lemma chained_adjacent {A} (R : A -> A -> Prop) (pre : list A) (a b : A) post :
  chained R (pre ++ a :: b :: post) -> R a b.
Proof.
  induction pre as [|x pre IH]; simpl.
  - now intros [Hab _].
  - destruct pre as [|y pre]; simpl in *; intros [_ Hl]; now apply IH.
Qed.

Lemma chained_tail {A} (R : A -> A -> Prop) (a : A) (l : list A) :
  chained R (a :: l) -> chained R l.
Proof. destruct l; simpl; [trivial | now intros [_ ?]]. Qed.

End JSMore.

(** ** More on the chunker *)

Section ChunkerMore.
Import JS Chunker Props Notions.
Context `{Hashing}.

Section Run.
Variables (filePath fileHash organizationId projectId gitBranch : string).
Variable isBase : bool.
Variable cfg : ChunkerConfig.

(** The two ways an iteration goes: the pending lines become a chunk and
    the next one is seeded with the overlap, or the line is added to the
    pending ones. *)
Lemma loop_body_cases (i : Z) (line : string) (st : LoopState) :
  (maxChunkChars cfg < currentChunkChars st + (str_length line + 1) /\
   0 < arr_length (currentChunk st) /\
   minChunkChars cfg <= currentChunkChars st /\
   loop_body filePath fileHash organizationId projectId gitBranch isBase cfg i line st
   = {| chunks := chunks st ++
                  [createChunk (currentChunk st) (startLine_var st) i
                     filePath fileHash organizationId projectId gitBranch isBase];
        currentChunk := overlap_of (overlapLines cfg) (currentChunk st) ++ [line];
        currentChunkChars :=
          chars_of (overlap_of (overlapLines cfg) (currentChunk st)) + (str_length line + 1);
        startLine_var :=
          i - (arr_length (overlap_of (overlapLines cfg) (currentChunk st)) - 1) |})
  \/
  (~ (maxChunkChars cfg < currentChunkChars st + (str_length line + 1) /\
      0 < arr_length (currentChunk st) /\
      minChunkChars cfg <= currentChunkChars st) /\
   loop_body filePath fileHash organizationId projectId gitBranch isBase cfg i line st
   = {| chunks := chunks st;
        currentChunk := currentChunk st ++ [line];
        currentChunkChars := currentChunkChars st + (str_length line + 1);
        startLine_var := startLine_var st |}).
Proof.
  unfold loop_body.
  destruct (Z.gtb_spec (currentChunkChars st + (str_length line + 1)) (maxChunkChars cfg));
  destruct (Z.gtb_spec (arr_length (currentChunk st)) 0); cbn [andb];
  try (right; split; [lia | reflexivity]).
  destruct (Z.geb_spec (currentChunkChars st) (minChunkChars cfg)).
  - left. repeat split; try lia.
  - right. split; [lia | reflexivity].
Qed.

(** The two ways the step after the loop goes. *)
Lemma finalize_cases (lines : list string) (st : LoopState) :
  (0 < arr_length (currentChunk st) /\
   minChunkChars cfg <= currentChunkChars st /\
   finalize filePath fileHash organizationId projectId gitBranch isBase cfg lines st
   = chunks st ++
     [createChunk (currentChunk st) (startLine_var st) (arr_length lines)
        filePath fileHash organizationId projectId gitBranch isBase])
  \/
  (~ (0 < arr_length (currentChunk st) /\ minChunkChars cfg <= currentChunkChars st) /\
   finalize filePath fileHash organizationId projectId gitBranch isBase cfg lines st
   = chunks st).
Proof.
  unfold finalize.
  destruct (Z.gtb_spec (arr_length (currentChunk st)) 0);
  destruct (Z.geb_spec (currentChunkChars st) (minChunkChars cfg)); cbn [andb];
  [left; repeat split; lia | right; split; [lia | reflexivity] ..].
Qed.

Variable lines : list string.
Variable longest : Z.
Hypothesis lines_no_LF : Forall (fun l => occurs LF l = false) lines.
Hypothesis lines_short : Forall (fun l => str_length l <= longest) lines.
Hypothesis longest_nonneg : 0 <= longest.

(** Induction along the loop, with the invariant of the loop at hand. *)
Lemma loop_run_with (P : nat -> LoopState -> Prop) :
  (forall (n : nat) (line : string) (st : LoopState),
     lines !! n = Some line ->
     loop_inv cfg lines longest n st -> P n st ->
     P (S n) (loop_body filePath fileHash organizationId projectId gitBranch isBase cfg
                (Z.of_nat n) line st)) ->
  forall (remaining : list string) (n : nat) (st : LoopState),
    loop_inv cfg lines longest n st -> P n st ->
    drop n lines = remaining ->
    P (length lines)
      (loop filePath fileHash organizationId projectId gitBranch isBase cfg
         (Z.of_nat n) remaining st).
Proof.
  intros Hstep remaining. induction remaining as [|line remaining IH];
    intros n st Hinv HP Hdrop.
  - simpl. assert (length lines <= n)%nat.
    { apply (f_equal length) in Hdrop. rewrite length_drop in Hdrop. simpl in Hdrop. lia. }
    destruct Hinv as (Hn & _). now replace (length lines) with n by lia.
  - simpl. replace (Z.of_nat n + 1) with (Z.of_nat (S n)) by lia.
    assert (Hline : lines !! n = Some line).
    { rewrite <- (Nat.add_0_r n), <- lookup_drop, Hdrop. reflexivity. }
    apply IH.
    + now apply loop_body_inv.
    + now apply Hstep.
    + replace (S n) with (n + 1)%nat by lia. rewrite <- drop_drop, Hdrop. reflexivity.
Qed.

End Run.

(** [chunkFile] is the final step applied to the state the loop ends in,
    where the loop invariant and any property kept by every iteration hold. *)
Lemma chunkFile_final (P : nat -> LoopState -> Prop)
    (filePath content fileHash organizationId projectId gitBranch : string)
    (isBase : bool) (config : option PartialChunkerConfig) :
  P 0%nat loop_start ->
  (forall (n : nat) (line : string) (st : LoopState),
     split LF content !! n = Some line ->
     loop_inv (resolveConfig config) (split LF content) (max_line_len content) n st ->
     P n st ->
     P (S n) (loop_body filePath fileHash organizationId projectId gitBranch isBase
                (resolveConfig config) (Z.of_nat n) line st)) ->
  exists st,
    chunkFile filePath content fileHash organizationId projectId gitBranch isBase config
    = finalize filePath fileHash organizationId projectId gitBranch isBase
        (resolveConfig config) (split LF content) st /\
    loop_inv (resolveConfig config) (split LF content) (max_line_len content)
      (length (split LF content)) st /\
    P (length (split LF content)) st.
Proof.
  intros Hstart Hstep.
  assert (Hnl : Forall (fun l => occurs LF l = false) (split LF content))
    by apply split_no_sep.
  assert (Hshort : Forall (fun l => str_length l <= max_line_len content) (split LF content))
    by apply max_line_len_bounds.
  assert (Hlong : 0 <= max_line_len content) by apply max_line_len_nonneg.
  pose proof (loop_inv_start (resolveConfig config) (split LF content)
                (max_line_len content) Hlong) as Hinv0.
  eexists. split; [reflexivity |]. split.
  - exact (loop_inv_run filePath fileHash organizationId projectId gitBranch isBase
             (resolveConfig config) (split LF content) (max_line_len content)
             Hnl Hshort Hlong (split LF content) 0%nat _ Hinv0 eq_refl).
  - exact (loop_run_with filePath fileHash organizationId projectId gitBranch isBase
             (resolveConfig config) (split LF content) (max_line_len content)
             Hnl Hshort Hlong P Hstep (split LF content) 0%nat _ Hinv0 Hstart eq_refl).
Qed.

(** Making a chunk of the pending lines keeps the chain of line ranges. *)
Lemma ranges_emit
    (filePath fileHash organizationId projectId gitBranch : string) (isBase : bool)
    (cfg : ChunkerConfig) (content : string) (n : nat) (st : LoopState) :
  loop_inv cfg (split LF content) (max_line_len content) n st ->
  ranges_inv (overlapLines cfg) n st ->
  0 < arr_length (currentChunk st) ->
  minChunkChars cfg <= currentChunkChars st ->
  let C := createChunk (currentChunk st) (startLine_var st) (Z.of_nat n)
             filePath fileHash organizationId projectId gitBranch isBase in
  chunk_lines C = currentChunk st /\
  chained (follows (overlapLines cfg)) (chunks st ++ [C]) /\
  match chunks st ++ [C] with c :: _ => startLine c = 1 | [] => True end.
Proof.
  intros (Hn & Hsuf & Hchars & Hstart & Hbound & Hok & Hlink) (Hchain & Hlast & Hfirst)
    Hpos Hmin C.
  assert (Hne : currentChunk st <> []).
  { intros E. rewrite E in Hpos. unfold arr_length in Hpos. simpl in Hpos. lia. }
  destruct (pending_chunk_ok filePath fileHash organizationId projectId gitBranch isBase
              cfg (split LF content) (max_line_len content)
              (split_no_sep LF content) (max_line_len_bounds content)
              (currentChunk st) n (startLine_var st)) as [_ Hcl];
    try assumption; try lia.
  split; [exact Hcl |]. split.
  - apply chained_snoc; [exact Hchain |].
    destruct (last (chunks st)) as [A |]; [| exact I].
    destruct Hlast as [HA Hend]. split; [exact HA | exact Hend].
  - destruct (chunks st) as [|c rest]; [| exact Hfirst].
    cbn [app]. cbn in Hlast. exact Hlast.
Qed.

Lemma ranges_step
    (filePath fileHash organizationId projectId gitBranch : string) (isBase : bool)
    (cfg : ChunkerConfig) (content : string) (n : nat) (line : string) (st : LoopState) :
  loop_inv cfg (split LF content) (max_line_len content) n st ->
  ranges_inv (overlapLines cfg) n st ->
  ranges_inv (overlapLines cfg) (S n)
    (loop_body filePath fileHash organizationId projectId gitBranch isBase cfg
       (Z.of_nat n) line st).
Proof.
  intros Hinv Hranges.
  destruct (loop_body_cases filePath fileHash organizationId projectId gitBranch isBase cfg
              (Z.of_nat n) line st) as [(_ & Hpos & Hmin & ->) | (_ & ->)].
  - destruct (ranges_emit filePath fileHash organizationId projectId gitBranch isBase
                cfg content n st Hinv Hranges Hpos Hmin) as (Hcl & Hchain & Hfirst).
    unfold ranges_inv. cbn [chunks startLine_var].
    split; [exact Hchain |]. split; [| exact Hfirst].
    rewrite last_snoc, Hcl. cbn [endLine createChunk]. split; lia.
  - destruct Hranges as (Hchain & Hlast & Hfirst).
    unfold ranges_inv. cbn [chunks startLine_var].
    split; [exact Hchain |]. split; [| exact Hfirst].
    destruct (last (chunks st)); [| exact Hlast].
    destruct Hlast. split; [assumption | lia].
Qed.

Lemma ranges_start k : ranges_inv k 0 loop_start.
Proof. unfold ranges_inv, loop_start. simpl. auto. Qed.

(** The state the loop ends in, with the invariants on content and on
    line numbers. *)
Lemma chunkFile_end_state
    (filePath content fileHash organizationId projectId gitBranch : string)
    (isBase : bool) (config : option PartialChunkerConfig) :
  exists st,
    chunkFile filePath content fileHash organizationId projectId gitBranch isBase config
    = finalize filePath fileHash organizationId projectId gitBranch isBase
        (resolveConfig config) (split LF content) st /\
    loop_inv (resolveConfig config) (split LF content) (max_line_len content)
      (length (split LF content)) st /\
    ranges_inv (overlapLines (resolveConfig config)) (length (split LF content)) st.
Proof.
  apply (chunkFile_final (ranges_inv (overlapLines (resolveConfig config)))).
  - apply ranges_start.
  - intros n line st _ Hinv Hr. now apply (ranges_step _ _ _ _ _ _ _ content).
Qed.

(** The chunks of a file, in order: each follows the one before it, and
    the first starts at line 1. *)
Lemma chunkFile_ranges
    (filePath content fileHash organizationId projectId gitBranch : string)
    (isBase : bool) (config : option PartialChunkerConfig) :
  chained (follows (overlapLines (resolveConfig config)))
    (chunkFile filePath content fileHash organizationId projectId gitBranch isBase config) /\
  match chunkFile filePath content fileHash organizationId projectId gitBranch isBase config
  with c :: _ => startLine c = 1 | [] => True end.
Proof.
  destruct (chunkFile_end_state filePath content fileHash organizationId projectId gitBranch
              isBase config) as (st & -> & Hinv & Hranges).
  destruct (finalize_cases filePath fileHash organizationId projectId gitBranch isBase
              (resolveConfig config) (split LF content) st)
    as [(Hpos & Hmin & ->) | (_ & ->)].
  - destruct (ranges_emit filePath fileHash organizationId projectId gitBranch isBase
                (resolveConfig config) content _ st Hinv Hranges Hpos Hmin)
      as (_ & Hchain & Hfirst).
    unfold arr_length. split; assumption.
  - destruct Hranges as (Hchain & _ & Hfirst). split; assumption.
Qed.


(** The lines of a well-formed chunk are the lines of the file in its range. *)
Lemma chunk_ok_lines cfg (lines : list string) longest (c : ManagedCodeChunk) :
  Forall (fun l => occurs LF l = false) lines ->
  chunk_ok cfg lines longest c ->
  chunk_lines c = slice lines (startLine c - 1) (endLine c) /\
  arr_length (chunk_lines c) = endLine c - startLine c + 1 /\
  chars_of (chunk_lines c) <= chars_of lines.
Proof.
  intros Hnl (Hse & Hend & Hne & Hcode & _ & _).
  unfold arr_length in Hend.
  assert (Hslice : slice lines (startLine c - 1) (endLine c)
                   = drop (Z.to_nat (startLine c - 1)) (take (Z.to_nat (endLine c)) lines)).
  { rewrite <- (Z2Nat.id (startLine c - 1)) at 1 by lia.
    rewrite <- (Z2Nat.id (endLine c)) at 1 by lia.
    apply slice_take_drop. lia. }
  assert (Hcl : chunk_lines c = slice lines (startLine c - 1) (endLine c)).
  { unfold chunk_lines. rewrite Hcode. apply split_join; [exact Hne |].
    rewrite Hslice. apply Forall_drop, Forall_take, Hnl. }
  split; [exact Hcl |]. rewrite Hcl, Hslice. split.
  - unfold arr_length. rewrite length_drop, length_take. lia.
  - etransitivity; [apply chars_of_suffix_le, suffix_drop | apply chars_of_take_le].
Qed.

(** X1.  The text of a chunk has [endLine - startLine + 1] lines: the
    lines of the file from [startLine] to [endLine]. *)
Theorem chunkFile_line_count
    (filePath content fileHash organizationId projectId gitBranch : string)
    (isBase : bool) (config : option PartialChunkerConfig) (c : ManagedCodeChunk) :
  In c (chunkFile filePath content fileHash organizationId projectId gitBranch isBase config) ->
  split LF (codeChunk c) = slice (split LF content) (startLine c - 1) (endLine c) /\
  arr_length (split LF (codeChunk c)) = endLine c - startLine c + 1.
Proof.
  intros Hin.
  destruct (chunkFile_ok filePath content fileHash organizationId projectId gitBranch isBase
              config) as [Hok _].
  apply list_elem_of_In in Hin. rewrite Forall_forall in Hok.
  destruct (chunk_ok_lines _ _ _ c (split_no_sep LF content) (Hok c Hin)) as (H1 & H2 & _).
  split; assumption.
Qed.

(** X2.  Of two consecutive chunks, the second starts right after the
    first, moved back by the overlap ([overlapLines] lines, or the whole
    first chunk when it is shorter; nothing when [overlapLines <= 0]); so it
    starts neither before the first nor past the line after it, and it ends
    later. *)
Theorem chunkFile_consecutive
    (filePath content fileHash organizationId projectId gitBranch : string)
    (isBase : bool) (config : option PartialChunkerConfig)
    (before : list ManagedCodeChunk) (A B : ManagedCodeChunk) (after : list ManagedCodeChunk) :
  chunkFile filePath content fileHash organizationId projectId gitBranch isBase config
  = before ++ A :: B :: after ->
  startLine B
  = endLine A + 1
    - Z.min (endLine A - startLine A + 1) (Z.max (overlapLines (resolveConfig config)) 0) /\
  startLine A <= startLine B <= endLine A + 1 /\
  endLine A < endLine B.
Proof.
  intros Heq.
  destruct (chunkFile_ranges filePath content fileHash organizationId projectId gitBranch
              isBase config) as [Hchain _].
  destruct (chunkFile_ok filePath content fileHash organizationId projectId gitBranch isBase
              config) as [Hok _].
  rewrite Heq in Hchain, Hok.
  apply chained_adjacent in Hchain as [Hstart Hend].
  apply Forall_app in Hok as [_ Hok]. apply Forall_cons in Hok as [HA _].
  destruct (chunk_ok_lines _ _ _ A (split_no_sep LF content) HA) as (_ & Hcount & _).
  rewrite overlap_of_length, Hcount in Hstart.
  destruct HA as (HA & _). lia.
Qed.

Lemma chained_cover (l : list ManagedCodeChunk) (first final : ManagedCodeChunk) (j : Z) :
  chained (fun A B => startLine B <= endLine A + 1) l ->
  head l = Some first -> last l = Some final ->
  startLine first <= j <= endLine final ->
  exists c, In c l /\ startLine c <= j <= endLine c.
Proof.
  revert first. induction l as [|a l IH]; intros first Hchain Hhead Hlast Hj; [discriminate |].
  injection Hhead as <-.
  destruct l as [|b l].
  - injection Hlast as <-. exists a. split; [now left | exact Hj].
  - destruct Hchain as [Hab Hchain].
    destruct (Z.le_gt_cases j (endLine a)) as [Hle | Hgt].
    + exists a. split; [now left | lia].
    + destruct (IH b Hchain eq_refl Hlast ltac:(lia)) as (c & Hc & Hjc).
      exists c. split; [now right | exact Hjc].
Qed.

Lemma chained_impl {A} (R S : A -> A -> Prop) (l : list A) :
  (forall a b, R a b -> S a b) -> chained R l -> chained S l.
Proof.
  intros HRS. induction l as [|a l IH]; [trivial |].
  destruct l as [|b l]; [trivial |]. intros [Hab Hl]. split; [now apply HRS | now apply IH].
Qed.

(** X3.  The chunks leave no gap: every line from the first to the last
    line of the last chunk lies in some chunk. *)
Theorem chunkFile_covers_prefix
    (filePath content fileHash organizationId projectId gitBranch : string)
    (isBase : bool) (config : option PartialChunkerConfig)
    (final : ManagedCodeChunk) (j : Z) :
  last (chunkFile filePath content fileHash organizationId projectId gitBranch isBase config)
  = Some final ->
  1 <= j <= endLine final ->
  exists c,
    In c (chunkFile filePath content fileHash organizationId projectId gitBranch isBase config)
    /\ startLine c <= j <= endLine c.
Proof.
  intros Hlast Hj.
  destruct (chunkFile_ranges filePath content fileHash organizationId projectId gitBranch
              isBase config) as [Hchain Hfirst].
  destruct (chunkFile_ok filePath content fileHash organizationId projectId gitBranch isBase
              config) as [Hok _].
  set (produced := chunkFile _ _ _ _ _ _ _ _) in *.
  destruct produced as [|first rest] eqn:E; [discriminate |].
  apply (chained_cover (first :: rest) first final j); try assumption; try reflexivity.
  - clear Hlast Hfirst. revert Hchain Hok. generalize (first :: rest). intros l.
    induction l as [|a l IH]; [trivial |]. destruct l as [|b l]; [trivial |].
    intros [[Hab _] Hl] Hok. apply Forall_cons in Hok as [Ha Hok].
    split; [| now apply IH].
    pose proof (overlap_of_length (overlapLines (resolveConfig config)) (chunk_lines a)).
    unfold arr_length in *. lia.
  - rewrite Hfirst. exact Hj.
Qed.

(** While no chunk has been made, every line read is pending, and after
    the first line something is pending. *)
Lemma pending_step
    (filePath fileHash organizationId projectId gitBranch : string) (isBase : bool)
    (cfg : ChunkerConfig) (lines : list string) (n : nat) (line : string) (st : LoopState) :
  lines !! n = Some line ->
  (chunks st = [] -> currentChunk st = take n lines) ->
  let st' := loop_body filePath fileHash organizationId projectId gitBranch isBase cfg
               (Z.of_nat n) line st in
  (chunks st' = [] -> currentChunk st' = take (S n) lines) /\ currentChunk st' <> [].
Proof.
  intros Hline Hall st'. subst st'.
  destruct (loop_body_cases filePath fileHash organizationId projectId gitBranch isBase cfg
              (Z.of_nat n) line st) as [(_ & _ & _ & ->) | (_ & ->)];
    cbn [chunks currentChunk].
  - split; [intros Habs; now apply app_eq_nil in Habs as [_ ?] |].
    intros Habs; now apply app_eq_nil in Habs as [_ ?].
  - split; [| intros Habs; now apply app_eq_nil in Habs as [_ ?]].
    intros Hnone. rewrite (take_S_r _ _ _ Hline), (Hall Hnone). reflexivity.
Qed.

(** X4.  [chunkFile] returns no chunk exactly when the file, counted with
    one newline per line, is below [minChunkChars]; an empty file counts 1. *)
Theorem chunkFile_empty_iff
    (filePath content fileHash organizationId projectId gitBranch : string)
    (isBase : bool) (config : option PartialChunkerConfig) :
  chunkFile filePath content fileHash organizationId projectId gitBranch isBase config = []
  <-> str_length content + 1 < minChunkChars (resolveConfig config).
Proof.
  rewrite <- chars_of_split. split.
  - intros Hnil.
    destruct (chunkFile_final
                (fun n st => (chunks st = [] -> currentChunk st = take n (split LF content)))
                filePath content fileHash organizationId projectId gitBranch isBase config)
      as (st & Hfin & Hinv & Hpend).
    + intros _. reflexivity.
    + intros n line st Hline _ Hall.
      now apply (pending_step filePath fileHash organizationId projectId gitBranch isBase).
    + rewrite Hfin in Hnil.
      destruct (finalize_cases filePath fileHash organizationId projectId gitBranch isBase
                  (resolveConfig config) (split LF content) st)
        as [(_ & _ & Heq) | (Hno & Heq)]; rewrite Heq in Hnil.
      * now apply app_eq_nil in Hnil as [_ ?].
      * destruct Hinv as (_ & _ & Hchars & _).
        rewrite (Hpend Hnil), firstn_all in Hchars.
        rewrite (Hpend Hnil), firstn_all, Hchars in Hno.
        pose proof (split_not_nil LF content) as Hne.
        destruct (split LF content) as [|l ls] eqn:E; [congruence |].
        unfold arr_length in Hno. cbn [length] in Hno. lia.
  - intros Hsmall.
    destruct (chunkFile_ok filePath content fileHash organizationId projectId gitBranch isBase
                config) as [Hok _].
    destruct (chunkFile _ _ _ _ _ _ _ _) as [|c rest]; [reflexivity |].
    apply Forall_cons in Hok as [Hc _].
    destruct (chunk_ok_lines _ _ _ c (split_no_sep LF content) Hc) as (Hcl & _ & Hle).
    destruct Hc as (_ & _ & Hne & Hcode & Hmin & _).
    unfold lines_of in *.
    rewrite Hcode, (str_length_join _ Hne), <- Hcl in Hmin. lia.
Qed.

(** X5.  A file that, counted with one newline per line, is at most
    [maxChunkChars] is never split: a chunk [chunkFile] returns for it is
    the only chunk returned, and it is the whole content, from line 1 to the
    last line. *)
Theorem chunkFile_single_chunk
    (filePath content fileHash organizationId projectId gitBranch : string)
    (isBase : bool) (config : option PartialChunkerConfig) (c : ManagedCodeChunk) :
  str_length content + 1 <= maxChunkChars (resolveConfig config) ->
  In c (chunkFile filePath content fileHash organizationId projectId gitBranch isBase config) ->
  chunkFile filePath content fileHash organizationId projectId gitBranch isBase config = [c]
  /\ codeChunk c = content
  /\ startLine c = 1
  /\ endLine c = arr_length (split LF content).
Proof.
  rewrite <- chars_of_split. intros Hmax Hin.
  assert (Hmin : minChunkChars (resolveConfig config) <= chars_of (split LF content)).
  { destruct (chunkFile_ok filePath content fileHash organizationId projectId gitBranch isBase
                config) as [Hok _].
    rewrite Forall_forall in Hok.
    assert (Hc := Hok c (proj2 (list_elem_of_In _ _) Hin)).
    destruct (chunk_ok_lines _ _ _ c (split_no_sep LF content) Hc) as (Hcl & _ & Hle).
    destruct Hc as (_ & _ & Hne & Hcode & Hmin & _).
    unfold lines_of in *.
    rewrite Hcode, (str_length_join _ Hne), <- Hcl in Hmin. lia. }
  assert (Hone : exists c0,
            chunkFile filePath content fileHash organizationId projectId gitBranch isBase config
            = [c0]
            /\ codeChunk c0 = content
            /\ startLine c0 = 1
            /\ endLine c0 = arr_length (split LF content));
    [| destruct Hone as (c0 & Heq & Hrest); rewrite Heq in Hin;
       destruct Hin as [<- | []]; now split].
  destruct (chunkFile_final
              (fun n st => chunks st = [] /\ currentChunk st = take n (split LF content))
              filePath content fileHash organizationId projectId gitBranch isBase config)
    as (st & Hfin & Hinv & Hnone & Hall).
  - split; reflexivity.
  - intros n line st Hline (_ & _ & Hchars & _) [Hnone Hall].
    destruct (loop_body_cases filePath fileHash organizationId projectId gitBranch isBase
                (resolveConfig config) (Z.of_nat n) line st)
      as [(Hover & _ & _ & _) | (_ & ->)].
    + exfalso. rewrite Hchars, Hall, <- chars_of_snoc, <- (take_S_r _ _ _ Hline) in Hover.
      pose proof (chars_of_take_le (S n) (split LF content)). lia.
    + cbn [chunks currentChunk]. split; [exact Hnone |].
      now rewrite (take_S_r _ _ _ Hline), Hall.
  - rewrite firstn_all in Hall.
    destruct Hinv as (_ & _ & Hchars & Hstart & _).
    pose proof (split_not_nil LF content) as Hne.
    destruct (finalize_cases filePath fileHash organizationId projectId gitBranch isBase
                (resolveConfig config) (split LF content) st)
      as [(_ & _ & Heq) | (Hno & _)].
    + eexists. split; [rewrite Hfin, Heq, Hnone; reflexivity |].
      cbn [codeChunk startLine endLine createChunk]. rewrite Hall.
      split; [apply join_split |]. split; [| reflexivity].
      rewrite Hstart, Hall. unfold arr_length. lia.
    + exfalso. apply Hno. rewrite Hchars, Hall. split; [| exact Hmin].
      destruct (split LF content); [congruence |]. unfold arr_length. cbn [length]. lia.
Qed.


(** X6.  Lines are lost only at the end of a file: either the last chunk
    ends at the last line, or the lines left after it, together with the
    overlap they would start with, count less than [minChunkChars]. *)
Theorem chunkFile_tail
    (filePath content fileHash organizationId projectId gitBranch : string)
    (isBase : bool) (config : option PartialChunkerConfig) (final : ManagedCodeChunk) :
  last (chunkFile filePath content fileHash organizationId projectId gitBranch isBase config)
  = Some final ->
  endLine final = arr_length (split LF content) \/
  chars_of (slice (split LF content)
              (endLine final
               - Z.min (endLine final - startLine final + 1)
                   (Z.max (overlapLines (resolveConfig config)) 0))
              (arr_length (split LF content)))
  < minChunkChars (resolveConfig config).
Proof.
  intros Hlast.
  destruct (chunkFile_final
              (fun n st => ranges_inv (overlapLines (resolveConfig config)) n st /\
                           ((0 < n)%nat -> currentChunk st <> []))
              filePath content fileHash organizationId projectId gitBranch isBase config)
    as (st & Hfin & Hinv & Hranges & Hpending).
  - split; [apply ranges_start | lia].
  - intros n line st Hline Hinv [Hr _]. split.
    + now apply (ranges_step _ _ _ _ _ _ _ content).
    + intros _.
      destruct (loop_body_cases filePath fileHash organizationId projectId gitBranch isBase
                  (resolveConfig config) (Z.of_nat n) line st)
        as [(_ & _ & _ & ->) | (_ & ->)]; cbn [currentChunk];
        intros Habs; now apply app_eq_nil in Habs as [_ ?].
  - rewrite Hfin in Hlast.
    destruct (finalize_cases filePath fileHash organizationId projectId gitBranch isBase
                (resolveConfig config) (split LF content) st)
      as [(_ & _ & Heq) | (Hno & Heq)]; rewrite Heq in Hlast.
    + left. rewrite last_snoc in Hlast. injection Hlast as <-. reflexivity.
    + right.
      pose proof (split_not_nil LF content) as Hne.
      assert (Hlen : (0 < length (split LF content))%nat)
        by (destruct (split LF content); [congruence | simpl; lia]).
      specialize (Hpending Hlen).
      destruct Hinv as (Hn & Hsuf & Hchars & Hstart & _ & Hok & _).
      destruct Hranges as (_ & Hvar & _). rewrite Hlast in Hvar. destruct Hvar as [Hvar Hend].
      assert (Hin : final ∈ chunks st).
      { apply last_Some in Hlast as [front ->]. apply elem_of_app. right. now left. }
      rewrite Forall_forall in Hok.
      destruct (chunk_ok_lines _ _ _ final (split_no_sep LF content) (Hok final Hin))
        as (_ & Hcount & _).
      rewrite overlap_of_length, Hcount in Hvar.
      destruct (suffix_of_lines_facts _ _ (split_no_sep LF content)
                  (max_line_len_bounds content) _ _ Hn Hsuf) as (Hle & Hseg & _).
      assert (Hslice :
        slice (split LF content)
          (endLine final
           - Z.min (endLine final - startLine final + 1)
               (Z.max (overlapLines (resolveConfig config)) 0))
          (arr_length (split LF content))
        = currentChunk st).
      { replace (endLine final - _)
          with (Z.of_nat (length (split LF content) - length (currentChunk st)))
          by (unfold arr_length in *; lia).
        unfold arr_length at 1. rewrite slice_take_drop by lia. now symmetry. }
      rewrite Hslice, <- Hchars.
      assert (0 < arr_length (currentChunk st)).
      { destruct (currentChunk st); [congruence | unfold arr_length; simpl; lia]. }
      lia.
Qed.

(** Every chunk carries what the call says of the file, and a hash and
    an identifier made from its place. *)
Lemma chunkFile_meta
    (filePath content fileHash organizationId projectId gitBranch : string)
    (isBase : bool) (config : option PartialChunkerConfig) :
  Forall (chunk_meta filePath organizationId projectId gitBranch isBase)
    (chunkFile filePath content fileHash organizationId projectId gitBranch isBase config).
Proof.
  destruct (chunkFile_final
              (fun _ st => Forall (chunk_meta filePath organizationId projectId gitBranch isBase)
                             (chunks st))
              filePath content fileHash organizationId projectId gitBranch isBase config)
    as (st & -> & _ & Hmeta).
  - constructor.
  - intros n line st _ _ Hmeta.
    destruct (loop_body_cases filePath fileHash organizationId projectId gitBranch isBase
                (resolveConfig config) (Z.of_nat n) line st)
      as [(_ & _ & _ & ->) | (_ & ->)]; cbn [chunks]; [| exact Hmeta].
    apply Forall_app. split; [exact Hmeta |].
    constructor; [repeat split | constructor].
  - destruct (finalize_cases filePath fileHash organizationId projectId gitBranch isBase
                (resolveConfig config) (split LF content) st)
      as [(_ & _ & ->) | (_ & ->)]; [| exact Hmeta].
    apply Forall_app. split; [exact Hmeta |].
    constructor; [repeat split | constructor].
Qed.

(** X7.  Every chunk carries the file path, organization, project, branch
    and base-branch flag of the call. *)
Theorem chunkFile_metadata
    (filePath content fileHash organizationId projectId gitBranch : string)
    (isBase : bool) (config : option PartialChunkerConfig) (c : ManagedCodeChunk) :
  In c (chunkFile filePath content fileHash organizationId projectId gitBranch isBase config) ->
  Chunker.filePath c = filePath /\
  Chunker.organizationId c = organizationId /\
  Chunker.projectId c = projectId /\
  Chunker.gitBranch c = gitBranch /\
  Chunker.isBaseBranch c = isBase.
Proof.
  intros Hin. apply list_elem_of_In in Hin.
  pose proof (chunkFile_meta filePath content fileHash organizationId projectId gitBranch
                isBase config) as Hmeta.
  rewrite Forall_forall in Hmeta.
  destruct (Hmeta c Hin) as (H1 & H2 & H3 & H4 & H5 & _). repeat split; assumption.
Qed.

(** X8.  The identity of a chunk is its place, not its text: chunks of the
    same file path, organization and branch that span the same lines have
    the same [chunkHash] and the same [id], whatever the contents, the file
    hashes, the projects and the configurations they come from. *)
Theorem chunkFile_identity
    (filePath organizationId gitBranch : string)
    (content1 fileHash1 projectId1 : string) (isBase1 : bool)
    (config1 : option PartialChunkerConfig)
    (content2 fileHash2 projectId2 : string) (isBase2 : bool)
    (config2 : option PartialChunkerConfig)
    (c1 c2 : ManagedCodeChunk) :
  In c1 (chunkFile filePath content1 fileHash1 organizationId projectId1 gitBranch isBase1
           config1) ->
  In c2 (chunkFile filePath content2 fileHash2 organizationId projectId2 gitBranch isBase2
           config2) ->
  startLine c1 = startLine c2 ->
  endLine c1 = endLine c2 ->
  chunkHash c1 = chunkHash c2 /\ id c1 = id c2.
Proof.
  intros Hin1 Hin2 Hs He.
  apply list_elem_of_In in Hin1, Hin2.
  pose proof (chunkFile_meta filePath content1 fileHash1 organizationId projectId1 gitBranch
                isBase1 config1) as Hmeta1.
  pose proof (chunkFile_meta filePath content2 fileHash2 organizationId projectId2 gitBranch
                isBase2 config2) as Hmeta2.
  rewrite Forall_forall in Hmeta1, Hmeta2.
  destruct (Hmeta1 c1 Hin1) as (_ & _ & _ & _ & _ & Hh1 & Hi1).
  destruct (Hmeta2 c2 Hin2) as (_ & _ & _ & _ & _ & Hh2 & Hi2).
  assert (Hh : chunkHash c1 = chunkHash c2) by (rewrite Hh1, Hh2, Hs, He; reflexivity).
  split; [exact Hh |]. now rewrite Hi1, Hi2, Hh.
Qed.

End ChunkerMore.

Section ChunkerMoreExamples.
Import JS Chunker Props Notions.

Lemma chunkFile_line_count_witness :
  exists c,
    In c (@chunkFile tagging_hashes "a.ts" two_long_lines "h" org_uuid "proj" "main" true
            (config_of 10 5 5)) /\
    (split LF (codeChunk c) = slice (split LF two_long_lines) (startLine c - 1) (endLine c) /\
     arr_length (split LF (codeChunk c)) = endLine c - startLine c + 1).
Proof.
  eexists.
  refine ((fun Hin => conj Hin
             (@chunkFile_line_count tagging_hashes "a.ts" two_long_lines "h" org_uuid "proj"
                "main" true (config_of 10 5 5) _ Hin)) _).
  vm_compute. right. left. reflexivity.
Defined.

Lemma chunkFile_consecutive_witness :
  exists A B,
    @chunkFile tagging_hashes "a.ts" two_long_lines "h" org_uuid "proj" "main" true
      (config_of 10 5 5) = [] ++ A :: B :: [] /\
    (startLine B
     = endLine A + 1
       - Z.min (endLine A - startLine A + 1)
           (Z.max (overlapLines (resolveConfig (config_of 10 5 5))) 0) /\
     startLine A <= startLine B <= endLine A + 1 /\
     endLine A < endLine B).
Proof.
  eexists. eexists.
  refine ((fun Heq => conj Heq
             (@chunkFile_consecutive tagging_hashes "a.ts" two_long_lines "h" org_uuid "proj"
                "main" true (config_of 10 5 5) [] _ _ [] Heq)) _).
  vm_compute. reflexivity.
Defined.

Lemma chunkFile_covers_prefix_witness :
  exists final,
    last (@chunkFile tagging_hashes "a.ts" two_words "h" org_uuid "proj" "main" true
            (config_of 10 5 0)) = Some final /\
    1 <= 1 <= endLine final /\
    exists c,
      In c (@chunkFile tagging_hashes "a.ts" two_words "h" org_uuid "proj" "main" true
              (config_of 10 5 0)) /\
      startLine c <= 1 <= endLine c.
Proof.
  eexists.
  refine ((fun Hlast Hj => conj Hlast (conj Hj
             (@chunkFile_covers_prefix tagging_hashes "a.ts" two_words "h" org_uuid "proj"
                "main" true (config_of 10 5 0) _ 1 Hlast Hj))) _ _).
  - vm_compute. reflexivity.
  - simpl. lia.
Defined.

Lemma chunkFile_single_chunk_witness :
  exists c,
    str_length two_words + 1 <= maxChunkChars (resolveConfig (config_of 100 5 0)) /\
    In c (@chunkFile tagging_hashes "a.ts" two_words "h" org_uuid "proj" "main" true
            (config_of 100 5 0)) /\
    (@chunkFile tagging_hashes "a.ts" two_words "h" org_uuid "proj" "main" true
       (config_of 100 5 0) = [c]
     /\ codeChunk c = two_words
     /\ startLine c = 1
     /\ endLine c = arr_length (split LF two_words)).
Proof.
  eexists.
  refine ((fun Hin Hmax => conj Hmax (conj Hin
             (@chunkFile_single_chunk tagging_hashes "a.ts" two_words "h" org_uuid "proj"
                "main" true (config_of 100 5 0) _ Hmax Hin))) _ _).
  - vm_compute. left. reflexivity.
  - vm_compute. discriminate.
Defined.

Lemma chunkFile_tail_witness :
  exists final,
    last (@chunkFile tagging_hashes "a.ts" short_tail "h" org_uuid "proj" "main" true
            (config_of 10 5 0)) = Some final /\
    (endLine final = arr_length (split LF short_tail) \/
     chars_of (slice (split LF short_tail)
                 (endLine final
                  - Z.min (endLine final - startLine final + 1)
                      (Z.max (overlapLines (resolveConfig (config_of 10 5 0))) 0))
                 (arr_length (split LF short_tail)))
     < minChunkChars (resolveConfig (config_of 10 5 0))).
Proof.
  eexists.
  refine ((fun Hlast => conj Hlast
             (@chunkFile_tail tagging_hashes "a.ts" short_tail "h" org_uuid "proj"
                "main" true (config_of 10 5 0) _ Hlast)) _).
  vm_compute. reflexivity.
Defined.

(** The last line of [short_tail] is in no chunk. *)
Example chunkFile_short_tail :
  map (fun c => (codeChunk c, startLine c, endLine c))
    (@chunkFile tagging_hashes "a.ts" short_tail "h" org_uuid "proj" "main" true
       (config_of 10 5 0))
  = [("abcdefgh", 1, 1)].
Proof. vm_compute. reflexivity. Qed.

Lemma chunkFile_metadata_witness :
  exists c,
    In c (@chunkFile tagging_hashes "a.ts" two_words "h" org_uuid "proj" "main" true
            (config_of 10 5 0)) /\
    (Chunker.filePath c = "a.ts" /\
     Chunker.organizationId c = org_uuid /\
     Chunker.projectId c = "proj" /\
     Chunker.gitBranch c = "main" /\
     Chunker.isBaseBranch c = true).
Proof.
  eexists.
  refine ((fun Hin => conj Hin
             (@chunkFile_metadata tagging_hashes "a.ts" two_words "h" org_uuid "proj"
                "main" true (config_of 10 5 0) _ Hin)) _).
  vm_compute. left. reflexivity.
Defined.

Lemma chunkFile_identity_witness :
  exists c1 c2,
    In c1 (@chunkFile tagging_hashes "a.ts" two_words "h1" org_uuid "proj" "main" true
             (config_of 10 5 0)) /\
    In c2 (@chunkFile tagging_hashes "a.ts" two_other_words "h2" org_uuid "proj" "main" true
             (config_of 10 4 0)) /\
    startLine c1 = startLine c2 /\
    endLine c1 = endLine c2 /\
    (chunkHash c1 = chunkHash c2 /\ id c1 = id c2).
Proof.
  eexists. eexists.
  split; [vm_compute; left; reflexivity |].
  split; [vm_compute; left; reflexivity |].
  split; [reflexivity |]. split; [reflexivity |].
  apply (@chunkFile_identity tagging_hashes "a.ts" org_uuid "main"
           two_words "h1" "proj" true (config_of 10 5 0)
           two_other_words "h2" "proj" true (config_of 10 4 0));
    [vm_compute; left; reflexivity | vm_compute; left; reflexivity
     | reflexivity | reflexivity].
Defined.

End ChunkerMoreExamples.

(** ** More on the git probe *)

Section GitMore.
Import JS Eff Git Props Notions.

Lemma strip_prefix_sound p s rest : strip_prefix p s = Some rest -> s = p +:+ rest.
Proof.
  revert s. induction p as [|a p IH]; intros s; simpl.
  - now intros [= ->].
  - destruct s as [|b s]; [discriminate |].
    destruct (Ascii.eqb_spec a b) as [-> | _]; [| discriminate].
    intros Hs. now rewrite (IH s Hs).
Qed.

(** A name the pattern captures is not empty and has no line terminator. *)
Lemma match_origin_sound s name :
  match_origin s = Some name -> truthy name = true /\ no_line_terminator name = true.
Proof.
  induction s as [|c s IH]; cbn [match_origin]; unfold match_origin_at.
  - cbn. discriminate.
  - destruct (strip_prefix "refs/remotes/origin/" (String c s)) as [rest |].
    + destruct (truthy rest && no_line_terminator rest) eqn:E.
      * intros [= <-]. now apply andb_true_iff in E.
      * exact IH.
    + exact IH.
Qed.

Lemma match_origin_ref name :
  truthy name = true -> no_line_terminator name = true ->
  match_origin ("refs/remotes/origin/" +:+ name) = Some name.
Proof.
  intros Ht Hn.
  change ("refs/remotes/origin/" +:+ name)
    with (String "r" ("efs/remotes/origin/" +:+ name)).
  cbn [match_origin]. unfold match_origin_at.
  replace (strip_prefix "refs/remotes/origin/" (String "r" ("efs/remotes/origin/" +:+ name)))
    with (Some name) by reflexivity.
  now rewrite Ht, Hn.
Qed.

Lemma trim_start_head s :
  match trim_start s with
  | EmptyString => True
  | String c _ => is_white_space c = false
  end.
Proof.
  induction s as [|c s IH]; [exact I |].
  cbn [trim_start]. destruct (is_white_space c) eqn:E; [exact IH | exact E].
Qed.

Lemma trim_end_cons c s :
  trim_end (String c s)
  = match trim_end s with
    | EmptyString => if is_white_space c then EmptyString else String c EmptyString
    | kept => String c kept
    end.
Proof. reflexivity. Qed.

Lemma trim_end_idem s : trim_end (trim_end s) = trim_end s.
Proof.
  induction s as [|c s IH]; [reflexivity |].
  rewrite (trim_end_cons c s). destruct (trim_end s) as [|d kept] eqn:E.
  - destruct (is_white_space c) eqn:Ec; [reflexivity |].
    rewrite trim_end_cons. cbn [trim_end]. now rewrite Ec.
  - rewrite trim_end_cons, IH. reflexivity.
Qed.

Lemma trim_end_head c s :
  is_white_space c = false ->
  exists kept, trim_end (String c s) = String c kept.
Proof.
  intros Hc. cbn [trim_end]. destruct (trim_end s) as [|d kept].
  - rewrite Hc. now exists EmptyString.
  - now exists (String d kept).
Qed.

(** Trimming twice is trimming once. *)
Lemma trim_idem s : trim (trim s) = trim s.
Proof.
  unfold trim at 2 3. pose proof (trim_start_head s) as Hhead.
  destruct (trim_start s) as [|c rest]; [reflexivity |].
  destruct (trim_end_head c rest Hhead) as [kept Hkept].
  unfold trim. rewrite Hkept at 1. cbn [trim_start]. rewrite Hhead, <- Hkept.
  apply trim_end_idem.
Qed.

Lemma occurs_trim_start c s : occurs c (trim_start s) = true -> occurs c s = true.
Proof.
  induction s as [|d s IH]; [trivial |].
  cbn [trim_start]. destruct (is_white_space d); [| trivial].
  intros Hc. cbn [occurs]. rewrite (IH Hc). apply orb_true_r.
Qed.

Lemma occurs_trim_end c s : occurs c (trim_end s) = true -> occurs c s = true.
Proof.
  induction s as [|d s IH]; [trivial |].
  cbn [trim_end occurs]. destruct (trim_end s) as [|e kept].
  - destruct (is_white_space d); [discriminate |].
    cbn [occurs]. rewrite orb_false_r. intros ->. reflexivity.
  - cbn [occurs] in *. intros Hc. apply orb_true_iff in Hc as [-> | Hc]; [reflexivity |].
    rewrite (IH Hc). apply orb_true_r.
Qed.

Lemma occurs_trim c s : occurs c s = false -> occurs c (trim s) = false.
Proof.
  intros Hs. destruct (occurs c (trim s)) eqn:E; [| reflexivity].
  apply occurs_trim_end, occurs_trim_start in E. congruence.
Qed.

Lemma parseDiffOutput_listed diffOutput : parseDiffOutput diffOutput = listed_entries diffOutput.
Proof.
  unfold parseDiffOutput, listed_entries.
  now rewrite fold_parseLine, listed_entries_filter, entries_app_no_entries_l.
Qed.

Lemma occurs_append c s t : occurs c (s +:+ t) = occurs c s || occurs c t.
Proof. induction s as [|d s IH]; [reflexivity |]. simpl. now rewrite IH, orb_assoc. Qed.

(** A line [STATUS TAB path] with a one-letter status stands for the path,
    TABs included. *)
Lemma line_entries_status_line (letter : ascii) (path : string) :
  Ascii.eqb letter TAB = false ->
  split TAB (status_line (String letter EmptyString) path)
  = String letter EmptyString :: split TAB path /\
  join (String TAB EmptyString) (split TAB path) = path.
Proof.
  intros Hl. split; [| apply join_split].
  unfold status_line. apply split_append. simpl. now rewrite Hl.
Qed.

Lemma line_entries_A path :
  line_entries (status_line "A" path)
  = {| added := [path]; modified := []; deleted := [] |}.
Proof.
  unfold line_entries.
  destruct (line_entries_status_line "A" path eq_refl) as [-> Hjoin].
  pose proof (split_not_nil TAB path) as Hne.
  destruct (split TAB path) as [|first more]; [congruence |].
  cbn [first_char]. now rewrite Hjoin.
Qed.

Lemma line_entries_M path :
  line_entries (status_line "M" path)
  = {| added := []; modified := [path]; deleted := [] |}.
Proof.
  unfold line_entries.
  destruct (line_entries_status_line "M" path eq_refl) as [-> Hjoin].
  pose proof (split_not_nil TAB path) as Hne.
  destruct (split TAB path) as [|first more]; [congruence |].
  cbn [first_char]. now rewrite Hjoin.
Qed.

Lemma line_entries_D path :
  line_entries (status_line "D" path)
  = {| added := []; modified := []; deleted := [path] |}.
Proof.
  unfold line_entries.
  destruct (line_entries_status_line "D" path eq_refl) as [-> Hjoin].
  pose proof (split_not_nil TAB path) as Hne.
  destruct (split TAB path) as [|first more]; [congruence |].
  cbn [first_char]. now rewrite Hjoin.
Qed.

Lemma entries_of_lines (a m d : list string) :
  foldr entries_app no_entries
    (map line_entries
       (map (status_line "A") a ++ map (status_line "M") m ++ map (status_line "D") d))
  = {| added := a; modified := m; deleted := d |}.
Proof.
  induction a as [|p a IH]; cbn [map app foldr].
  - induction m as [|p m IHm]; cbn [map app foldr].
    + induction d as [|p d IHd]; cbn [map foldr]; [reflexivity |].
      now rewrite IHd, line_entries_D.
    + now rewrite IHm, line_entries_M.
  - now rewrite IH, line_entries_A.
Qed.

(** X9.  [parseDiffOutput] reads back a diff printed one entry per line as
    [A], [M] or [D], a TAB and the path: the three lists come back as they
    were, for any paths without line feeds, paths with TABs included. *)
Theorem parseDiffOutput_render (d : GitDiff) :
  Forall (fun p => occurs LF p = false) (added d ++ modified d ++ deleted d) ->
  parseDiffOutput (render_diff d) = d.
Proof.
  intros Hpaths. rewrite parseDiffOutput_listed. unfold listed_entries, render_diff.
  set (lines := map (status_line "A") (added d) ++ map (status_line "M") (modified d)
                ++ map (status_line "D") (deleted d)).
  destruct lines as [|l ls] eqn:E.
  - destruct d as [[|? ?] [|? ?] [|? ?]]; try discriminate E. reflexivity.
  - rewrite <- E. unfold newline. rewrite split_join.
    + subst lines. rewrite entries_of_lines. now destruct d.
    + rewrite E. discriminate.
    + subst lines. clear E.
      apply Forall_app in Hpaths as [Ha Hpaths]. apply Forall_app in Hpaths as [Hm Hd].
      repeat (apply Forall_app; split); apply Forall_map;
        (eapply Forall_impl; [eassumption |]); intros p Hp;
        unfold status_line; rewrite occurs_append; cbn; now rewrite Hp.
Qed.

Section WithHost.
Context `{Host}.

(** A branch [getDefaultBranchFromRemote] returns was read from the
    symbolic ref in the state the call ends in. *)
Lemma getDefaultBranchFromRemote_origin workspacePath (m m1 : Machine) name :
  getDefaultBranchFromRemote workspacePath m = (Some (Some name), m1) ->
  readOriginHead workspacePath m1 = (Some (Some name), m1).
Proof.
  unfold getDefaultBranchFromRemote, try_catch at 1.
  destruct (readOriginHead_result workspacePath m) as [(n & Hr & _) | [Hr | Hr]]; rewrite Hr.
  - intros [= <- <-]. exact Hr.
  - intros [= ].
  - unfold try_catch, bind, ret.
    destruct (execSync "git remote set-head origin --auto" workspacePath m) as [[out |] m2].
    + destruct (readOriginHead_result workspacePath m2) as [(n & Hr2 & _) | [Hr2 | Hr2]];
        rewrite Hr2; intros [= ]; subst; exact Hr2.
    + intros [= ].
Qed.

Lemma readOriginHead_name workspacePath (m m1 : Machine) name :
  readOriginHead workspacePath m = (Some (Some name), m1) ->
  truthy name = true /\ no_line_terminator name = true.
Proof.
  unfold readOriginHead, bind, ret. rewrite execSync_query by reflexivity.
  destruct (git_query _ _ _) as [out |]; [| discriminate].
  destruct (match_origin (trim out)) as [n |] eqn:E; [| discriminate].
  destruct (truthy n); [| discriminate].
  intros [= <- _]. now apply match_origin_sound in E.
Qed.

(** X10.  A branch name [getDefaultBranchFromRemote] returns is never
    empty and holds no line terminator. *)
Theorem getDefaultBranchFromRemote_clean_name workspacePath (m m1 : Machine) (name : string) :
  getDefaultBranchFromRemote workspacePath m = (Some (Some name), m1) ->
  name <> EmptyString /\ no_line_terminator name = true.
Proof.
  intros Hd. apply getDefaultBranchFromRemote_origin, readOriginHead_name in Hd as [Ht Hn].
  split; [| exact Hn]. intros ->. discriminate Ht.
Qed.

(** X11.  When [git symbolic-ref refs/remotes/origin/HEAD] answers
    [refs/remotes/origin/NAME] (white space around it apart),
    [getDefaultBranchFromRemote] returns [NAME] and runs nothing else: the
    repository is left as it was. *)
Theorem getDefaultBranchFromRemote_reads workspacePath (m : Machine) (out name : string) :
  git_query "git symbolic-ref refs/remotes/origin/HEAD" workspacePath (world m) = Some out ->
  trim out = "refs/remotes/origin/" +:+ name ->
  name <> EmptyString ->
  no_line_terminator name = true ->
  getDefaultBranchFromRemote workspacePath m = (Some (Some name), m).
Proof.
  intros Hq Htrim Hne Hnl.
  assert (Ht : truthy name = true) by (destruct name; [congruence | reflexivity]).
  unfold getDefaultBranchFromRemote, try_catch at 1, readOriginHead, bind, ret.
  rewrite execSync_query by reflexivity.
  now rewrite Hq, Htrim, match_origin_ref, Ht.
Qed.

(** The outcome of [getBaseBranch]: the remote default, or one of the
    common names. *)
Lemma getBaseBranch_cases workspacePath (m : Machine) :
  exists d m1 b,
    getDefaultBranchFromRemote workspacePath m = (Some d, m1) /\
    getBaseBranch workspacePath m = (Some b, m1) /\
    (d = Some b \/ In b commonBranches).
Proof.
  destruct (getDefaultBranchFromRemote_total workspacePath m) as (d & m1 & Hd & Hname).
  assert (Hfallback : exists b,
    (found <- firstVerified commonBranches workspacePath ;;
     match found with Some b => ret b | None => ret "main" end) m1 = (Some b, m1)
    /\ In b commonBranches).
  { unfold bind. rewrite firstVerified_run.
    destruct (List.filter _ commonBranches) as [|b rest] eqn:E.
    - exists "main". split; [reflexivity | now left].
    - exists b. split; [reflexivity |].
      assert (Hin : In b (List.filter (fun branch => verifies branch workspacePath m1)
                            commonBranches)) by (rewrite E; now left).
      now apply filter_In in Hin as [Hin _]. }
  destruct Hfallback as (fb & Hfb & Hin).
  unfold getBaseBranch, bind at 1. rewrite Hd.
  destruct d as [name |].
  - rewrite (Hname name eq_refl). unfold bind at 1. rewrite tryVerify_run.
    destruct (verifies name workspacePath m1).
    + exists (Some name), m1, name. split; [reflexivity |]. split; [reflexivity | now left].
    + exists (Some name), m1, fb. split; [reflexivity |]. split; [exact Hfb | now right].
  - unfold bind at 1, ret at 1.
    exists None, m1, fb. split; [reflexivity |]. split; [exact Hfb | now right].
Qed.

(** X12.  The branch [getBaseBranch] resolves for a workspace is a base
    branch for [isBaseBranch] asked with that workspace, also when it is
    none of the common names. *)
Theorem getBaseBranch_isBaseBranch workspacePath (m : Machine) :
  truthy workspacePath = true ->
  exists b m1,
    getBaseBranch workspacePath m = (Some b, m1) /\
    isBaseBranch b (Some workspacePath) m1 = (Some true, m1).
Proof.
  intros Hws.
  destruct (getBaseBranch_cases workspacePath m) as (d & m1 & b & Hd & Hb & Hcase).
  exists b, m1. split; [exact Hb |].
  unfold isBaseBranch.
  destruct Hcase as [-> | Hin].
  - destruct (includes _ (toLowerCase b)); [reflexivity |].
    rewrite Hws. unfold bind.
    pose proof (getDefaultBranchFromRemote_origin _ _ _ _ Hd) as Hagain.
    destruct (readOriginHead_name _ _ _ _ Hagain) as [Ht _].
    unfold getDefaultBranchFromRemote, try_catch at 1. rewrite Hagain.
    now rewrite Ht, String.eqb_refl.
  - destruct Hin as [<- | [<- | [<- | []]]]; reflexivity.
Qed.

(** X13.  The files [getGitTrackedFilesSync] returns are never empty and
    carry no white space around them and no line feed. *)
Theorem getGitTrackedFilesSync_clean workspacePath (m : Machine) (files : list string)
    (f : string) :
  fst (getGitTrackedFilesSync workspacePath m) = Some files ->
  In f files ->
  f <> EmptyString /\ trim f = f /\ occurs LF f = false.
Proof.
  unfold getGitTrackedFilesSync, try_catch, bind, ret, throw.
  rewrite execSync_query by reflexivity.
  destruct (git_query _ _ _) as [output |]; [| discriminate].
  cbn [fst]. intros [= <-] Hin.
  apply filter_In in Hin as [Hin Hlen]. apply in_map_iff in Hin as (line & <- & Hline).
  split; [| split].
  - intros E. rewrite E in Hlen. discriminate Hlen.
  - apply trim_idem.
  - apply occurs_trim.
    pose proof (split_no_sep LF output) as Hnl. rewrite Forall_forall in Hnl.
    now apply Hnl, list_elem_of_In.
Qed.

(** X14.  When git prints the tracked files one per line, each ended by
    a line feed, and the names are not empty and have no white space around
    them, [getGitTrackedFilesSync] returns exactly these names in order. *)
Theorem getGitTrackedFilesSync_listing workspacePath (m : Machine) (files : list string) :
  Forall (fun f => f <> EmptyString /\ trim f = f /\ occurs LF f = false) files ->
  git_query "git ls-files" workspacePath (world m)
  = Some (join newline (files ++ [EmptyString])) ->
  getGitTrackedFilesSync workspacePath m = (Some files, m).
Proof.
  intros Hfiles Hq.
  unfold getGitTrackedFilesSync, try_catch, bind, ret.
  rewrite execSync_query by reflexivity. rewrite Hq.
  unfold newline. rewrite split_join.
  - f_equal. f_equal. rewrite map_app, List.filter_app.
    change (List.filter (fun line => str_length line >? 0) (map trim [EmptyString]))
      with (@nil string).
    rewrite app_nil_r. clear Hq.
    induction Hfiles as [|f files (Hne & Htrim & _) _ IH]; [reflexivity |].
    cbn [map List.filter]. rewrite Htrim, IH.
    destruct f; [congruence | reflexivity].
  - now destruct files.
  - apply Forall_app. split.
    + eapply Forall_impl; [exact Hfiles |]. now intros f (_ & _ & ?).
    + constructor; [reflexivity | constructor].
Qed.

End WithHost.
End GitMore.

(** ** More on the client cache *)

Section CacheMore.
Import JS Eff Git Cache Props Notions.

(** X15.  What the deleted-files list holds after an addition and after a
    removal: the path added and what was there; what was there but the path
    removed. *)
Theorem deletedFiles_membership (cache : ClientCache) (filePath x : string) :
  (In x (deletedFiles (addDeletedFile cache filePath))
   <-> x = filePath \/ In x (deletedFiles cache)) /\
  (In x (deletedFiles (removeDeletedFile cache filePath))
   <-> x <> filePath /\ In x (deletedFiles cache)).
Proof.
  split.
  - unfold addDeletedFile. case_bool_decide as Hin.
    + apply list_elem_of_In in Hin. split; [now right |]. now intros [-> | ?].
    + cbn [deletedFiles]. rewrite in_app_iff. cbn [In]. split.
      * intros [? | [<- | []]]; [now right | now left].
      * intros [-> | ?]; [right; now left | now left].
  - cbn [removeDeletedFile deletedFiles]. rewrite filter_In, negb_true_iff, String.eqb_neq.
    split; intros [? ?]; now split.
Qed.

Lemma filter_absent (l : list string) (p : string) :
  ~ In p l -> List.filter (fun f => negb (String.eqb f p)) l = l.
Proof.
  induction l as [|x l IH]; [reflexivity |]. cbn [In List.filter]. intros Hnot.
  destruct (String.eqb_spec x p) as [-> | _]; [exfalso; apply Hnot; now left |].
  cbn [negb]. rewrite IH; [reflexivity | tauto].
Qed.

(** X16.  Removing a path just added to a cache that did not list it gives
    the cache back. *)
Theorem removeDeletedFile_addDeletedFile (cache : ClientCache) (filePath : string) :
  ~ In filePath (deletedFiles cache) ->
  removeDeletedFile (addDeletedFile cache filePath) filePath = cache.
Proof.
  intros Hnot. unfold addDeletedFile.
  rewrite bool_decide_eq_false_2 by (now rewrite list_elem_of_In).
  unfold removeDeletedFile. cbn [gitBranch deletedFiles files].
  rewrite List.filter_app, (filter_absent _ _ Hnot). cbn [List.filter].
  rewrite String.eqb_refl. cbn [negb]. rewrite app_nil_r. now destruct cache.
Qed.

(** X17.  Adding one path and removing another can be done in either
    order. *)
Theorem addDeletedFile_removeDeletedFile_commute (cache : ClientCache) (p q : string) :
  p <> q ->
  addDeletedFile (removeDeletedFile cache q) p = removeDeletedFile (addDeletedFile cache p) q.
Proof.
  intros Hpq. unfold addDeletedFile. cbn [removeDeletedFile deletedFiles].
  assert (Hiff : p ∈ List.filter (fun f => negb (String.eqb f q)) (deletedFiles cache)
                 <-> p ∈ deletedFiles cache).
  { rewrite !list_elem_of_In, filter_In, negb_true_iff, String.eqb_neq. tauto. }
  case_bool_decide as H1; case_bool_decide as H2; try tauto; try reflexivity.
  unfold removeDeletedFile. cbn [gitBranch deletedFiles files].
  rewrite List.filter_app. cbn [List.filter].
  destruct (String.eqb_spec p q); [congruence | reflexivity].
Qed.

Section WithHost.
Context `{Host} `{Hashing}.

Lemma shouldIndexFile_run (cache : ClientCache) (filePath currentHash : string) (m : Machine) :
  shouldIndexFile cache filePath currentHash m
  = (Some match table_get (default ∅ (heap m !! files cache)) filePath with
          | None => true
          | Some entry => negb (String.eqb (hash entry) currentHash)
          end, m).
Proof. reflexivity. Qed.

(** X18.  Once a file is recorded with a hash, the cache asks to index it
    again exactly when its hash is another one. *)
Theorem shouldIndexFile_after_update (cache : ClientCache) (filePath fileHash : string)
    (count : Z) (m : Machine) (table : Table FileEntry) :
  heap m !! files cache = Some table ->
  exists m',
    updateCacheEntry cache filePath fileHash count m = (Some cache, m') /\
    forall currentHash,
      shouldIndexFile cache filePath currentHash m'
      = (Some (negb (String.eqb fileHash currentHash)), m').
Proof.
  intros Htable. eexists. split; [reflexivity |].
  intros currentHash. rewrite shouldIndexFile_run.
  unfold set_heap. cbn [heap]. rewrite lookup_alter_eq, Htable.
  cbn [fmap option_fmap option_map default from_option]; unfold id.
  now rewrite table_get_set_eq.
Qed.

(** X19.  [updateCacheEntry] touches one entry of one table: the world
    and the requests sent stay, the answer of [shouldIndexFile] for any other
    path stays, and so do the contents of every cache with another table. *)
Theorem updateCacheEntry_frame (cache : ClientCache) (filePath fileHash : string)
    (count : Z) (m : Machine) :
  exists m',
    updateCacheEntry cache filePath fileHash count m = (Some cache, m') /\
    world m' = world m /\
    outbox m' = outbox m /\
    (forall other currentHash,
       other <> filePath ->
       fst (shouldIndexFile cache other currentHash m')
       = fst (shouldIndexFile cache other currentHash m)) /\
    (forall cache2,
       files cache2 <> files cache -> contents m' cache2 = contents m cache2).
Proof.
  eexists. split; [reflexivity |]. split; [reflexivity |]. split; [reflexivity |]. split.
  - intros other currentHash Hne. rewrite !shouldIndexFile_run. cbn [fst].
    unfold set_heap. cbn [heap]. rewrite lookup_alter_eq.
    destruct (heap m !! files cache) as [table |]; cbn [fmap option_fmap option_map default from_option]; unfold id;
      [| reflexivity].
    now rewrite table_get_set_ne by congruence.
  - intros cache2 Hne. unfold contents, set_heap. cbn [heap].
    now rewrite lookup_alter_ne by congruence.
Qed.

(** X20.  [removeCacheEntry] returns a cache with the same branch and
    deleted files that asks to index the removed path whatever its hash and
    answers as before for every other path but [__proto__], while the cache
    it was given reads as before.  (The path [__proto__] is apart: an entry
    recorded under it became the prototype of the table, and the rest
    pattern does not copy a prototype.) *)
Theorem removeCacheEntry_result (cache : ClientCache) (filePath : string) (m : Machine) :
  is_Some (heap m !! files cache) ->
  exists cache' m',
    removeCacheEntry cache filePath m = (Some cache', m') /\
    gitBranch cache' = gitBranch cache /\
    deletedFiles cache' = deletedFiles cache /\
    (forall currentHash, fst (shouldIndexFile cache' filePath currentHash m') = Some true) /\
    (forall other currentHash,
       other <> filePath ->
       other <> "__proto__" ->
       fst (shouldIndexFile cache' other currentHash m')
       = fst (shouldIndexFile cache other currentHash m)) /\
    contents m' cache = contents m cache.
Proof.
  intros [table Htable]. eexists. eexists. split; [reflexivity |].
  split; [reflexivity |]. split; [reflexivity |].
  unfold set_heap. repeat split.
  - intros currentHash. rewrite shouldIndexFile_run. cbn [fst heap files].
    rewrite lookup_insert_eq. cbn [default from_option]; unfold id.
    now rewrite table_get_rest_eq.
  - intros other currentHash Hne Hproto. rewrite !shouldIndexFile_run. cbn [fst heap files].
    rewrite lookup_insert_eq, Htable. cbn [default from_option]; unfold id.
    now rewrite table_get_rest_ne.
  - assert (Hsome : is_Some (heap m !! files cache)) by now exists table.
    unfold contents. cbn [heap]. f_equal.
    apply lookup_insert_ne. intros Heq.
    apply (is_fresh (dom (heap m))). rewrite Heq. now apply elem_of_dom.
Qed.

(** X21.  [createEmptyCache] builds its table at an address no cache
    uses: every table there was reads as before, and the new cache asks to
    index every file. *)
Theorem createEmptyCache_fresh (gitBranch : string) (m : Machine) :
  exists cache m',
    createEmptyCache gitBranch m = (Some cache, m') /\
    Cache.gitBranch cache = gitBranch /\
    deletedFiles cache = [] /\
    heap m !! files cache = None /\
    world m' = world m /\
    (forall l, l <> files cache -> heap m' !! l = heap m !! l) /\
    (forall filePath currentHash,
       fst (shouldIndexFile cache filePath currentHash m') = Some true).
Proof.
  eexists. eexists. split; [reflexivity |].
  split; [reflexivity |]. split; [reflexivity |]. cbn [files]. split; [| split; [reflexivity |]].
  - apply not_elem_of_dom, is_fresh.
  - split.
    + intros l Hne. unfold set_heap. cbn [heap]. now rewrite lookup_insert_ne by congruence.
    + intros filePath currentHash. rewrite shouldIndexFile_run. cbn [fst files].
      unfold set_heap. cbn [heap]. rewrite lookup_insert_eq. cbn [default from_option]; unfold id.
      now rewrite table_get_empty.
Qed.

(** X22.  A cache returned by [addDeletedFile] or [removeDeletedFile]
    shares the table of the cache it was made from: recording a file through
    the new cache records it in the old one too. *)
Theorem updateCacheEntry_through_copy (cache : ClientCache) (x filePath fileHash : string)
    (count : Z) (m : Machine) (table : Table FileEntry) :
  heap m !! files cache = Some table ->
  (exists m',
     updateCacheEntry (addDeletedFile cache x) filePath fileHash count m
     = (Some (addDeletedFile cache x), m') /\
     fst (shouldIndexFile cache filePath fileHash m') = Some false) /\
  (exists m',
     updateCacheEntry (removeDeletedFile cache x) filePath fileHash count m
     = (Some (removeDeletedFile cache x), m') /\
     fst (shouldIndexFile cache filePath fileHash m') = Some false).
Proof.
  intros Htable.
  assert (Hadd : files (addDeletedFile cache x) = files cache).
  { unfold addDeletedFile. now case_bool_decide. }
  split; eexists; (split; [reflexivity |]); rewrite shouldIndexFile_run; cbn [fst];
    unfold set_heap; cbn [heap]; rewrite ?Hadd; cbn [removeDeletedFile files];
    rewrite lookup_alter_eq, Htable; cbn [fmap option_fmap option_map default from_option]; unfold id;
    rewrite table_get_set_eq; cbn [hash]; now rewrite String.eqb_refl.
Qed.

End WithHost.
End CacheMore.

(** ** More on search *)

Section SearchMore.
Import JS Eff Git Indexer Props Notions.
Context `{Host}.

(** X23.  When the current branch resolves, [search] resolves to what the
    remote answers, as it is, and rejects when the remote does; the heap is
    left alone and the world is the one the remote call leaves. *)
Theorem search_result (query : string) (config : ManagedIndexingConfig)
    (path : option string) (m : Machine) (gitBranch : string) :
  fst (getCurrentBranch (workspacePath config) m) = Some gitBranch ->
  let excludeFiles :=
    if String.eqb gitBranch "main" || String.eqb gitBranch "master"
       || String.eqb gitBranch "develop"
    then []
    else match fst (getGitDiff gitBranch "main" (workspacePath config) m) with
         | Some diff => deleted diff
         | None => []
         end in
  let request := request_of query config path gitBranch excludeFiles in
  let answer := remote_search request (kilocodeToken config) (world m) in
  search query config path m
  = (fst answer,
     {| world := snd answer;
        heap := heap m;
        outbox := outbox m ++ [(request, kilocodeToken config)] |}).
Proof.
  intros Hbranch excludeFiles request answer.
  rewrite getCurrentBranch_run in Hbranch. cbn [fst] in Hbranch.
  unfold search, try_catch at 1, bind at 1.
  rewrite getCurrentBranch_run, Hbranch.
  assert (Hexclude :
    (if negb (String.eqb gitBranch "main") && negb (String.eqb gitBranch "master")
        && negb (String.eqb gitBranch "develop")
     then try_catch
            (diff <- getGitDiff gitBranch "main" (workspacePath config) ;; ret (deleted diff))
            (ret [])
     else ret []) m = (Some excludeFiles, m)).
  { subst excludeFiles.
    destruct (String.eqb gitBranch "main"), (String.eqb gitBranch "master"),
      (String.eqb gitBranch "develop"); cbn [negb andb orb]; try reflexivity.
    unfold try_catch, bind, ret.
    pose proof (getGitDiff_pure gitBranch "main" (workspacePath config) m) as Hpure.
    destruct (getGitDiff gitBranch "main" (workspacePath config) m) as [[diff |] m1];
      cbn [snd fst] in *; subst m1; reflexivity. }
  unfold bind at 1. rewrite Hexclude.
  unfold bind, apiSearchCode, ret, throw. subst answer request. unfold request_of.
  destruct (remote_search _ (kilocodeToken config) (world m)) as [[results |] w];
    reflexivity.
Qed.

(** X24.  When the current branch cannot be read, [search] rejects
    without sending a request or changing anything. *)
Theorem search_without_branch (query : string) (config : ManagedIndexingConfig)
    (path : option string) (m : Machine) :
  fst (getCurrentBranch (workspacePath config) m) = None ->
  search query config path m = (None, m).
Proof.
  intros Hbranch. rewrite getCurrentBranch_run in Hbranch. cbn [fst] in Hbranch.
  unfold search, try_catch, bind, throw.
  now rewrite getCurrentBranch_run, Hbranch.
Qed.

End SearchMore.

(** ** More on the watcher *)

Section WatcherMore.
Import JS Eff Cache Indexer Watcher Props Notions.

Lemma by_type_permutation (events : list FileChangeEvent) :
  Permutation
    (List.filter (is_type deleted) events
     ++ List.filter (is_type created) events
     ++ List.filter (is_type changed) events)
    events.
Proof.
  induction events as [|e events IH]; [constructor |].
  cbn [List.filter].
  assert (Hty : forall t, is_type t e = true <-> type e = t) by (intros; apply is_type_spec).
  destruct (type e) eqn:Et.
  - replace (is_type deleted e) with false
      by (symmetry; apply not_true_is_false; rewrite Hty; discriminate).
    replace (is_type created e) with true by (symmetry; now apply Hty).
    replace (is_type changed e) with false
      by (symmetry; apply not_true_is_false; rewrite Hty; discriminate).
    etransitivity; [| apply perm_skip, IH].
    symmetry. apply Permutation_middle.
  - replace (is_type deleted e) with false
      by (symmetry; apply not_true_is_false; rewrite Hty; discriminate).
    replace (is_type created e) with false
      by (symmetry; apply not_true_is_false; rewrite Hty; discriminate).
    replace (is_type changed e) with true by (symmetry; now apply Hty).
    etransitivity; [| apply perm_skip, IH].
    rewrite (app_assoc _ _ (e :: _)), (app_assoc _ _ (List.filter (is_type changed) events)).
    symmetry. apply Permutation_middle.
  - replace (is_type deleted e) with true by (symmetry; now apply Hty).
    replace (is_type created e) with false
      by (symmetry; apply not_true_is_false; rewrite Hty; discriminate).
    replace (is_type changed e) with false
      by (symmetry; apply not_true_is_false; rewrite Hty; discriminate).
    cbn [app]. now apply perm_skip.
Qed.

Lemma handler_calls_by_type (events : list FileChangeEvent) :
  map CallHandleFileDeleted (List.filter (is_type deleted) events)
  ++ map CallIndexFile (List.filter (is_type created) events
                        ++ List.filter (is_type changed) events)
  = map handler_call (List.filter (is_type deleted) events
                      ++ List.filter (is_type created) events
                      ++ List.filter (is_type changed) events).
Proof.
  rewrite !map_app. f_equal; [| f_equal];
    apply map_ext_in; intros e He; apply filter_In in He as [_ He];
    apply is_type_spec in He; unfold handler_call; now rewrite He.
Qed.

Section WithHost.
Context `{Host} `{Hashing} `{!Scanner}.
Variable config : ManagedIndexingConfig.
Variable context : ExtensionContext.

(** X25.  When the batch is not empty and the cache loads, every event of
    the batch gets its handler called exactly once, whether handlers fail or
    not: the calls are those of a rearrangement of the batch, followed by
    the callback when there is one; and the machine the batch leaves is the
    one reached by running these calls in order from the cache that was
    loaded. *)
Theorem processChangeQueue_each_once (events : list FileChangeEvent)
    (onFilesChanged : option (list FileChangeEvent -> M unit)) (m : Machine)
    (cache0 : LoadedCache) (m0 : Machine) :
  events <> [] ->
  loadClientCache context (workspacePath config) m = (Some cache0, m0) ->
  exists served,
    Permutation served events /\
    calls (processChangeQueue config context events onFilesChanged (start m))
    = map handler_call served
      ++ match onFilesChanged with
         | Some _ => [CallOnFilesChanged events]
         | None => []
         end /\
    machine (processChangeQueue config context events onFilesChanged (start m))
    = snd (run_calls config context onFilesChanged
             (calls (processChangeQueue config context events onFilesChanged (start m)))
             (cache0, m0)).
Proof.
  intros Hne Hload.
  exists (List.filter (is_type deleted) events
          ++ List.filter (is_type created) events
          ++ List.filter (is_type changed) events).
  split; [apply by_type_permutation |].
  rewrite (processChangeQueue_run config context onFilesChanged events m cache0 m0 Hne Hload).
  cbn [calls machine]. split; [| reflexivity].
  unfold calls_of_batch. now rewrite <- handler_calls_by_type, <- app_assoc.
Qed.

(** X26.  When the cache cannot be loaded (the current branch cannot be
    read), the whole batch is dropped: no handler is called, the callback
    is not told, and the machine is left as it was. *)
Theorem processChangeQueue_dropped (events : list FileChangeEvent)
    (onFilesChanged : option (list FileChangeEvent -> M unit)) (r : Run) :
  fst (Git.getCurrentBranch (workspacePath config) (machine r)) = None ->
  processChangeQueue config context events onFilesChanged r = r.
Proof.
  intros Hbranch. unfold processChangeQueue.
  destruct (arr_length events =? 0); [reflexivity |].
  rewrite getCurrentBranch_run in Hbranch. cbn [fst] in Hbranch.
  unfold lift, loadClientCache, try_catch.
  unfold bind at 1. rewrite getCurrentBranch_run, Hbranch.
  unfold bind at 1. rewrite getCurrentBranch_run, Hbranch. now destruct r.
Qed.

End WithHost.
End WatcherMore.

(** ** The further properties on examples *)

Section MoreExamples.
Import JS Eff Git Cache Indexer Props Notions.

Lemma parseDiffOutput_render_witness :
  Forall (fun p => occurs LF p = false)
    (added tabbed_diff ++ modified tabbed_diff ++ Git.deleted tabbed_diff) /\
  parseDiffOutput (render_diff tabbed_diff) = tabbed_diff.
Proof.
  refine ((fun Hpaths => conj Hpaths (parseDiffOutput_render tabbed_diff Hpaths)) _).
  repeat constructor.
Defined.

Lemma getDefaultBranchFromRemote_clean_name_witness :
  @getDefaultBranchFromRemote (scripted_host canary_repo) "/ws" (boot canary_repo)
  = (Some (Some "canary"), boot canary_repo) /\
  ("canary" <> EmptyString /\ no_line_terminator "canary" = true).
Proof.
  refine ((fun Hd => conj Hd
             (@getDefaultBranchFromRemote_clean_name (scripted_host canary_repo) "/ws"
                (boot canary_repo) (boot canary_repo) "canary" Hd)) _).
  vm_compute. reflexivity.
Defined.

Lemma getDefaultBranchFromRemote_reads_witness :
  @git_query (scripted_host canary_repo) "git symbolic-ref refs/remotes/origin/HEAD" "/ws"
    (world (boot canary_repo)) = Some ("refs/remotes/origin/canary" +:+ newline) /\
  trim ("refs/remotes/origin/canary" +:+ newline) = "refs/remotes/origin/" +:+ "canary" /\
  "canary" <> EmptyString /\
  no_line_terminator "canary" = true /\
  @getDefaultBranchFromRemote (scripted_host canary_repo) "/ws" (boot canary_repo)
  = (Some (Some "canary"), boot canary_repo).
Proof.
  refine ((fun Hq Ht Hne Hnl => conj Hq (conj Ht (conj Hne (conj Hnl
             (@getDefaultBranchFromRemote_reads (scripted_host canary_repo) "/ws"
                (boot canary_repo) ("refs/remotes/origin/canary" +:+ newline) "canary"
                Hq Ht Hne Hnl))))) _ _ _ _).
  - vm_compute. reflexivity.
  - vm_compute. reflexivity.
  - discriminate.
  - reflexivity.
Defined.

Lemma getBaseBranch_isBaseBranch_witness :
  truthy "/ws" = true /\
  exists b m1,
    @getBaseBranch (scripted_host canary_repo) "/ws" (boot canary_repo) = (Some b, m1) /\
    @isBaseBranch (scripted_host canary_repo) b (Some "/ws") m1 = (Some true, m1).
Proof.
  refine ((fun Hws => conj Hws
             (@getBaseBranch_isBaseBranch (scripted_host canary_repo) "/ws"
                (boot canary_repo) Hws)) _).
  reflexivity.
Defined.

(** Asked without the workspace, [isBaseBranch] does not know [canary]. *)
Example isBaseBranch_canary_without_workspace :
  fst (@isBaseBranch (scripted_host canary_repo) "canary" None (boot canary_repo))
  = Some false.
Proof. vm_compute. reflexivity. Qed.

Lemma getGitTrackedFilesSync_clean_witness :
  fst (@getGitTrackedFilesSync (scripted_host listing_repo) "/ws" (boot listing_repo))
  = Some ["src/a.ts"; "src/b.ts"] /\
  In "src/b.ts" ["src/a.ts"; "src/b.ts"] /\
  ("src/b.ts" <> EmptyString /\ trim "src/b.ts" = "src/b.ts" /\ occurs LF "src/b.ts" = false).
Proof.
  refine ((fun Hf Hin => conj Hf (conj Hin
             (@getGitTrackedFilesSync_clean (scripted_host listing_repo) "/ws"
                (boot listing_repo) ["src/a.ts"; "src/b.ts"] "src/b.ts" Hf Hin))) _ _).
  - vm_compute. reflexivity.
  - simpl. right. left. reflexivity.
Defined.

Lemma getGitTrackedFilesSync_listing_witness :
  Forall (fun f => f <> EmptyString /\ trim f = f /\ occurs LF f = false)
    ["src/a.ts"; "src/b.ts"] /\
  @git_query (scripted_host clean_listing_repo) "git ls-files" "/ws"
    (world (boot clean_listing_repo))
  = Some (join newline (["src/a.ts"; "src/b.ts"] ++ [EmptyString])) /\
  @getGitTrackedFilesSync (scripted_host clean_listing_repo) "/ws" (boot clean_listing_repo)
  = (Some ["src/a.ts"; "src/b.ts"], boot clean_listing_repo).
Proof.
  refine ((fun Hfiles Hq => conj Hfiles (conj Hq
             (@getGitTrackedFilesSync_listing (scripted_host clean_listing_repo) "/ws"
                (boot clean_listing_repo) ["src/a.ts"; "src/b.ts"] Hfiles Hq))) _ _).
  - repeat constructor; discriminate.
  - vm_compute. reflexivity.
Defined.

Lemma removeDeletedFile_addDeletedFile_witness :
  ~ In "c.ts" (deletedFiles small_cache) /\
  removeDeletedFile (addDeletedFile small_cache "c.ts") "c.ts" = small_cache.
Proof.
  refine ((fun Hnot => conj Hnot
             (removeDeletedFile_addDeletedFile small_cache "c.ts" Hnot)) _).
  simpl. intros [Habs | [Habs | []]]; discriminate Habs.
Defined.

Lemma addDeletedFile_removeDeletedFile_commute_witness :
  "c.ts" <> "a.ts" /\
  addDeletedFile (removeDeletedFile small_cache "a.ts") "c.ts"
  = removeDeletedFile (addDeletedFile small_cache "c.ts") "a.ts".
Proof.
  refine ((fun Hne => conj Hne
             (addDeletedFile_removeDeletedFile_commute small_cache "c.ts" "a.ts" Hne)) _).
  discriminate.
Defined.

Lemma shouldIndexFile_after_update_witness :
  heap (stocked plain_repo) !! files small_cache = Some ∅ /\
  exists m',
    @updateCacheEntry (scripted_host plain_repo) small_cache "a.ts" "h1" 3
      (stocked plain_repo) = (Some small_cache, m') /\
    forall currentHash,
      @shouldIndexFile (scripted_host plain_repo) small_cache "a.ts" currentHash m'
      = (Some (negb (String.eqb "h1" currentHash)), m').
Proof.
  refine ((fun Htable => conj Htable
             (@shouldIndexFile_after_update (scripted_host plain_repo) small_cache
                "a.ts" "h1" 3 (stocked plain_repo) ∅ Htable)) _).
  apply lookup_singleton_eq.
Defined.

Lemma removeCacheEntry_result_witness :
  is_Some (heap (laden plain_repo) !! files small_cache) /\
  exists cache' m',
    @removeCacheEntry (scripted_host plain_repo) small_cache "b.ts" (laden plain_repo)
    = (Some cache', m') /\
    gitBranch cache' = gitBranch small_cache /\
    deletedFiles cache' = deletedFiles small_cache /\
    (forall currentHash,
       fst (@shouldIndexFile (scripted_host plain_repo) cache' "b.ts" currentHash m')
       = Some true) /\
    (forall other currentHash,
       other <> "b.ts" ->
       other <> "__proto__" ->
       fst (@shouldIndexFile (scripted_host plain_repo) cache' other currentHash m')
       = fst (@shouldIndexFile (scripted_host plain_repo) small_cache other currentHash
                (laden plain_repo))) /\
    contents m' small_cache = contents (laden plain_repo) small_cache.
Proof.
  refine ((fun Hsome => conj Hsome
             (@removeCacheEntry_result (scripted_host plain_repo) small_cache "b.ts"
                (laden plain_repo) Hsome)) _).
  eexists. apply lookup_singleton_eq.
Defined.

(** The path [__proto__] is not kept by [removeCacheEntry]: the cache given
    knows the hash recorded for it, the cache returned does not. *)
Example removeCacheEntry_drops_prototype :
  exists cache' m',
    @removeCacheEntry (scripted_host plain_repo) small_cache "b.ts" (laden plain_repo)
    = (Some cache', m') /\
    fst (@shouldIndexFile (scripted_host plain_repo) small_cache "__proto__" "hp"
           (laden plain_repo)) = Some false /\
    fst (@shouldIndexFile (scripted_host plain_repo) cache' "__proto__" "hp" m') = Some true.
Proof.
  eexists. eexists. split; [reflexivity |]. split; vm_compute; reflexivity.
Qed.

Lemma updateCacheEntry_through_copy_witness :
  heap (stocked plain_repo) !! files small_cache = Some ∅ /\
  (exists m',
     @updateCacheEntry (scripted_host plain_repo) (addDeletedFile small_cache "c.ts")
       "a.ts" "h1" 3 (stocked plain_repo)
     = (Some (addDeletedFile small_cache "c.ts"), m') /\
     fst (@shouldIndexFile (scripted_host plain_repo) small_cache "a.ts" "h1" m')
     = Some false) /\
  (exists m',
     @updateCacheEntry (scripted_host plain_repo) (removeDeletedFile small_cache "c.ts")
       "a.ts" "h1" 3 (stocked plain_repo)
     = (Some (removeDeletedFile small_cache "c.ts"), m') /\
     fst (@shouldIndexFile (scripted_host plain_repo) small_cache "a.ts" "h1" m')
     = Some false).
Proof.
  refine ((fun Htable => conj Htable
             (@updateCacheEntry_through_copy (scripted_host plain_repo) small_cache
                "c.ts" "a.ts" "h1" 3 (stocked plain_repo) ∅ Htable)) _).
  apply lookup_singleton_eq.
Defined.

Lemma search_result_witness :
  fst (@getCurrentBranch (scripted_host canary_repo) (workspacePath example_config)
         (boot canary_repo)) = Some "feature/x" /\
  (let excludeFiles :=
     if String.eqb "feature/x" "main" || String.eqb "feature/x" "master"
        || String.eqb "feature/x" "develop"
     then []
     else match fst (@getGitDiff (scripted_host canary_repo) "feature/x" "main"
                       (workspacePath example_config) (boot canary_repo)) with
          | Some diff => Git.deleted diff
          | None => []
          end in
   let request := request_of "needle" example_config None "feature/x" excludeFiles in
   let answer := @remote_search (scripted_host canary_repo) request
                   (kilocodeToken example_config) (world (boot canary_repo)) in
   @search (scripted_host canary_repo) "needle" example_config None (boot canary_repo)
   = (fst answer,
      {| world := snd answer;
         heap := heap (boot canary_repo);
         outbox := outbox (boot canary_repo) ++ [(request, kilocodeToken example_config)] |})).
Proof.
  refine ((fun Hb => conj Hb
             (@search_result (scripted_host canary_repo) "needle" example_config None
                (boot canary_repo) "feature/x" Hb)) _).
  vm_compute. reflexivity.
Defined.

Lemma search_without_branch_witness :
  fst (@getCurrentBranch (scripted_host no_repo) (workspacePath example_config)
         (boot no_repo)) = None /\
  @search (scripted_host no_repo) "needle" example_config None (boot no_repo)
  = (None, boot no_repo).
Proof.
  refine ((fun Hb => conj Hb
             (@search_without_branch (scripted_host no_repo) "needle" example_config None
                (boot no_repo) Hb)) _).
  vm_compute. reflexivity.
Defined.

End MoreExamples.

Section WatcherMoreExamples.
Import JS Eff Cache Indexer Watcher Props Notions.

Lemma processChangeQueue_each_once_witness :
  exists cache0 m0,
    example_events <> [] /\
    @loadClientCache (scripted_host plain_repo) tagging_hashes example_context
      (workspacePath example_config) (boot plain_repo) = (Some cache0, m0) /\
    exists served,
      Permutation served example_events /\
      calls (@processChangeQueue (scripted_host plain_repo) tagging_hashes
               (flaky_scanner plain_repo) example_config example_context example_events None
               (start (boot plain_repo)))
      = map handler_call served ++ [] /\
      machine (@processChangeQueue (scripted_host plain_repo) tagging_hashes
                 (flaky_scanner plain_repo) example_config example_context example_events
                 None (start (boot plain_repo)))
      = snd (@run_calls (scripted_host plain_repo) (flaky_scanner plain_repo) example_config
               example_context None
               (calls (@processChangeQueue (scripted_host plain_repo) tagging_hashes
                         (flaky_scanner plain_repo) example_config example_context
                         example_events None (start (boot plain_repo))))
               (cache0, m0)).
Proof.
  eexists. eexists.
  refine ((fun Hload Hne => conj Hne (conj Hload
             (@processChangeQueue_each_once (scripted_host plain_repo) tagging_hashes
                (flaky_scanner plain_repo) example_config example_context example_events
                None (boot plain_repo) _ _ Hne Hload))) _ _).
  - reflexivity.
  - discriminate.
Defined.

(** With the flaky scanner every deletion fails and every index call
    records its file: the calls are made all the same, and the table of the
    cache ends with the two files indexed. *)
Example processChangeQueue_flaky :
  calls (@processChangeQueue (scripted_host plain_repo) tagging_hashes
           (flaky_scanner plain_repo) example_config example_context example_events None
           (start (boot plain_repo)))
  = [CallHandleFileDeleted {| type := deleted; filePath := "/ws/b.ts"; timestamp := 2 |};
     CallIndexFile {| type := created; filePath := "/ws/c.ts"; timestamp := 3 |};
     CallIndexFile {| type := changed; filePath := "/ws/a.ts"; timestamp := 1 |}] /\
  map (fun table => (hash <$> table_get table "/ws/a.ts",
                     hash <$> table_get table "/ws/b.ts",
                     hash <$> table_get table "/ws/c.ts"))
    (map snd (map_to_list
                (heap (machine (@processChangeQueue (scripted_host plain_repo) tagging_hashes
                                  (flaky_scanner plain_repo) example_config example_context
                                  example_events None (start (boot plain_repo)))))))
  = [(Some "h1", None, Some "h1")].
Proof. split; vm_compute; reflexivity. Qed.

Lemma processChangeQueue_dropped_witness :
  fst (@Git.getCurrentBranch (scripted_host no_repo) (workspacePath example_config)
         (machine (start (boot no_repo)))) = None /\
  @processChangeQueue (scripted_host no_repo) tagging_hashes (flaky_scanner no_repo)
    example_config example_context example_events None (start (boot no_repo))
  = start (boot no_repo).
Proof.
  refine ((fun Hb => conj Hb
             (@processChangeQueue_dropped (scripted_host no_repo) tagging_hashes
                (flaky_scanner no_repo) example_config example_context example_events None
                (start (boot no_repo)) Hb)) _).
  vm_compute. reflexivity.
Defined.

End WatcherMoreExamples.
